(** * IR base nodes of the CUDA fuser: Statement, Val, Expr and ConstCheck

    A shallow embedding of [torch/csrc/jit/codegen/cuda/ir_base_nodes.cpp].
    IR nodes live in an arena and refer to each other through raw pointers,
    so the model has an explicit heap of objects indexed by address; a
    nullable pointer is an [option] address.  Failing [TORCH_CHECK]s and
    [TORCH_INTERNAL_ASSERT]s are values of an error monad, and the one
    recursive traversal ([ConstCheck]) is driven by a fuel argument. *)

From Stdlib Require Import ZArith.
From stdpp Require Import base option list gmap strings.

(** ** Outcomes of running a member function *)

Inductive exn :=
| TorchCheck (msg : string)       (* TORCH_CHECK failed *)
| InternalAssert (msg : string)   (* TORCH_INTERNAL_ASSERT failed *)
| InvalidPointer.                 (* an address that holds no object of the
                                     static type of the pointer *)

Inductive res (A : Type) :=
| Ok (a : A)
| Raise (e : exn)
| OutOfFuel.

Arguments Ok {A} a.
Arguments Raise {A} e.
Arguments OutOfFuel {A}.

#[global] Instance res_ret : MRet res := fun A a => Ok a.
#[global] Instance res_bind : MBind res := fun A B f m =>
  match m with
  | Ok a => f a
  | Raise e => Raise e
  | OutOfFuel => OutOfFuel
  end.
#[global] Instance res_fmap : FMap res := fun A B f m =>
  match m with
  | Ok a => Ok (f a)
  | Raise e => Raise e
  | OutOfFuel => OutOfFuel
  end.

(** ** Tags *)

(** Modelled from the spec: the enumerations [ValType], [DataType] and
    [ExprType] are declared outside this file.  The constructors listed are
    the ones the file names ([ValType::TensorView], [ValType::Scalar],
    [DataType::Null]) and the kinds the spec names (named symbolic scalars,
    boolean, floating and integer literals); every other enumerator is
    [Other] with its numeric value. *)
Module ValType.
Inductive t := TensorView | Scalar | NamedScalar | Other (tag : N).
End ValType.

Module DataType.
Inductive t := Null | Bool | Double | Int | Other (tag : N).
End DataType.

Abbreviation ExprType := N (only parsing).
Abbreviation StmtNameType := N (only parsing).
Abbreviation addr := N (only parsing).

#[global] Instance ValType_eq_dec : EqDecision ValType.t.
Proof. solve_decision. Defined.
#[global] Instance DataType_eq_dec : EqDecision DataType.t.
Proof. solve_decision. Defined.

(** ** Nodes *)

(** [Statement]: the assigned name and the non-owning pointer to the Fusion. *)
Record Statement := mkStatement {
  name_ : StmtNameType;
  fusion_ : option addr;
}.

(** [Val]: the [Statement] base subobject and the members of [Val]. *)
Record Val := mkVal {
  val_base : Statement;
  vtype_ : ValType.t;
  dtype_ : DataType.t;
  is_fusion_input_ : bool;
  is_fusion_output_ : bool;
  definition_ : option addr;
  uses_ : list addr;
}.

(** [Expr]: the [Statement] base subobject and the members of [Expr]. *)
Record Expr := mkExpr {
  expr_base : Statement;
  type_ : ExprType;
  inputs_ : list addr;
  outputs_ : list addr;
}.

(** Modelled from the spec: the literal classes [Bool], [Double] and [Int]
    are declared outside this file.  The file reads two things from them:
    [isConst()], the literal's own marked-constant flag, and, for [Int],
    [value()], which [getInt] returns as an optional integer. *)
Record Literal (T : Type) := mkLiteral {
  isConst : bool;
  value : option T;
}.
Arguments mkLiteral {T} _ _.
Arguments isConst {T} _.
Arguments value {T} _.

(** The dynamic class of a [Val] object.  A [Double] payload is kept as the
    bit pattern of the number, which nothing in this file inspects.
    [OtherVal] stands for the classes ConstCheck has no handler for. *)
Inductive ValNode :=
| Bool_ (v : Val) (lit : Literal bool)
| Double_ (v : Val) (lit : Literal Z)
| Int_ (v : Val) (lit : Literal Z)
| NamedScalar_ (v : Val) (name : string)
| OtherVal (v : Val).

Definition val_of (n : ValNode) : Val :=
  match n with
  | Bool_ v _ | Double_ v _ | Int_ v _ | NamedScalar_ v _ | OtherVal v => v
  end.

Inductive Object :=
| OVal (n : ValNode)
| OExpr (e : Expr).

Abbreviation Heap := (gmap N Object) (only parsing).

(** Dereferencing a [Statement*], a [Val*] and an [Expr*]. *)
Definition load (h : Heap) (p : addr) : res Object :=
  match h !! p with
  | Some o => Ok o
  | None => Raise InvalidPointer
  end.

Definition load_Val (h : Heap) (p : addr) : res ValNode :=
  o ← load h p;
  match o with
  | OVal n => Ok n
  | OExpr _ => Raise InvalidPointer
  end.

Definition load_Expr (h : Heap) (p : addr) : res Expr :=
  o ← load h p;
  match o with
  | OExpr e => Ok e
  | OVal _ => Raise InvalidPointer
  end.

(** [fusion()] of a Val and of an Expr. *)
Definition Val_fusion (v : Val) : option addr := fusion_ (val_base v).
Definition Expr_fusion (e : Expr) : option addr := fusion_ (expr_base e).

(** ** Members declared in the headers *)

(** Inline members of [Val] that this file calls and does not define. *)
Class ValHeader := {
  definition : Val → option addr;
  isScalar : Val → bool;
  isAnInt : Val → bool;
}.

(** [sameAs] on the inputs of an Expr is the virtual member of the concrete
    Val classes; it is called on a [Val*] with a [Val*] argument. *)
Class ValSameAs := {
  Val_sameAs : Heap → addr → addr → res bool;
}.

(** ** Val::isProducerOf, Val::isConsumerOf *)

Definition any_of {A} (l : list A) (p : A → bool) : bool := existsb p l.

Definition Val_isProducerOf `{ValHeader}
    (h : Heap) (this : addr) (other : option addr) : res bool :=
  match other with
  | None => Raise (InternalAssert "other != nullptr")
  | Some o =>
    n ← load_Val h this;
    on ← load_Val h o;
    if decide (Val_fusion (val_of n) = Val_fusion (val_of on)) then
      match definition (val_of n) with
      | None => Ok false
      | Some d =>
        e ← load_Expr h d;
        Ok (any_of (inputs_ e) (λ input, bool_decide (input = o)))
      end
    else Raise (InternalAssert "fusion() == other->fusion()")
  end.

Definition Val_isConsumerOf `{ValHeader}
    (h : Heap) (this : addr) (other : option addr) : res bool :=
  match other with
  | None => Raise InvalidPointer
  | Some o => Val_isProducerOf h o (Some this)
  end.

(** ** Expr::sameAs *)

(** [c10::irange(n)] and [input(i)], the indexed read of [inputs_]. *)
Definition irange (n : nat) : list nat := seq 0 n.

Definition input (e : Expr) (i : nat) : res addr :=
  match inputs_ e !! i with
  | Some p => Ok p
  | None => Raise InvalidPointer
  end.

(** The loop of [Expr::sameAs], leaving at the first pair that differs. *)
Fixpoint sameAs_loop `{ValSameAs}
    (h : Heap) (e other_expr : Expr) (range : list nat) : res bool :=
  match range with
  | [] => Ok true
  | i :: range' =>
    a ← input e i;
    b ← input other_expr i;
    s ← Val_sameAs h a b;
    if negb s then Ok false else sameAs_loop h e other_expr range'
  end.

(** The part of [Expr::sameAs] that runs once [other] is known to be an
    Expr: the comparison of the two operation kinds, the two pairs of sizes
    and the inputs. *)
Definition Expr_sameAs_exprs `{ValSameAs}
    (h : Heap) (e other_expr : Expr) : res bool :=
  if negb (bool_decide (type_ e = type_ other_expr)) then Ok false
  else if negb (bool_decide (length (inputs_ e) = length (inputs_ other_expr)))
          || negb (bool_decide (length (outputs_ e) = length (outputs_ other_expr)))
  then Ok false
  else sameAs_loop h e other_expr (irange (length (inputs_ e))).

Definition Expr_sameAs `{ValSameAs}
    (h : Heap) (this other : addr) : res bool :=
  if bool_decide (this = other) then Ok true
  else
    o ← load h other;
    match o with
    | OVal _ => Ok false
    | OExpr other_expr =>
      e ← load_Expr h this;
      Expr_sameAs_exprs h e other_expr
    end.

(** ** ConstCheck *)

Module ConstCheck.

(** The state of the visitor is its member [is_const_]; each handler maps
    the value before the visit to the value after it. *)
Definition handle_Bool (b : Literal bool) (is_const_ : bool) : bool :=
  is_const_ && isConst b.

Definition handle_Double (d : Literal Z) (is_const_ : bool) : bool :=
  is_const_ && isConst d.

Definition handle_Int (i : Literal Z) (is_const_ : bool) : bool :=
  is_const_ && isConst i.

Definition handle_NamedScalar (is_const_ : bool) : bool :=
  is_const_ && false.

(** Modelled from the spec: [OptOutConstDispatch::handle(const Val* )] is
    defined outside this file.  It routes to the handler of the node's
    own concrete kind, and a kind with no specific rule leaves the running
    result unchanged. *)
Definition OptOutConstDispatch_handle (n : ValNode) (is_const_ : bool) : bool :=
  match n with
  | Bool_ _ b => handle_Bool b is_const_
  | Double_ _ d => handle_Double d is_const_
  | Int_ _ i => handle_Int i is_const_
  | NamedScalar_ _ _ => handle_NamedScalar is_const_
  | OtherVal _ => is_const_
  end.

(** The loop of [handle(const Expr* )] over the inputs, given the handler
    for a [Val*]. *)
Fixpoint handle_inputs (handle : addr → bool → res bool)
    (inputs : list addr) (is_const_ : bool) : res bool :=
  match inputs with
  | [] => Ok is_const_
  | inp :: rest =>
    s ← handle inp is_const_;
    handle_inputs handle rest s
  end.

Definition handle_Expr (handle : addr → bool → res bool)
    (h : Heap) (expr : addr) (is_const_ : bool) : res bool :=
  e ← load_Expr h expr;
  handle_inputs handle (inputs_ e) is_const_.

(** [handle(const Val* )]; one unit of fuel for each Val visited on the
    way down a chain of definitions. *)
Fixpoint handle_Val `{ValHeader}
    (fuel : nat) (h : Heap) (val : addr) (is_const_ : bool) : res bool :=
  match fuel with
  | O => OutOfFuel
  | S fuel' =>
    n ← load_Val h val;
    match definition (val_of n) with
    | Some d => handle_Expr (handle_Val fuel' h) h d is_const_
    | None => Ok (OptOutConstDispatch_handle n is_const_)
    end
  end.

Definition isConst `{ValHeader} (fuel : nat) (h : Heap) (val : addr) : res bool :=
  handle_Val fuel h val true.

End ConstCheck.

(** ** Val::isConstScalar, getInt, isZeroInt, isOneInt *)

Definition Val_isConstScalar `{ValHeader}
    (fuel : nat) (h : Heap) (this : addr) : res bool :=
  n ← load_Val h this;
  if negb (isScalar (val_of n)) then Ok false
  else ConstCheck.isConst fuel h this.

(** Modelled from the spec: [as<Int>()] is a template of the header; a
    downcast to a class the object does not have fails. *)
Definition as_Int (n : ValNode) : res (Literal Z) :=
  match n with
  | Int_ _ i => Ok i
  | _ => Raise (InternalAssert "downcast_ptr != nullptr")
  end.

Definition Val_getInt `{ValHeader}
    (fuel : nat) (h : Heap) (this : addr) : res (option Z) :=
  n ← load_Val h this;
  c ← Val_isConstScalar fuel h this;
  if c && isAnInt (val_of n) then
    if bool_decide (vtype_ (val_of n) = ValType.Scalar) then
      i ← as_Int n;
      Ok (value i)
    else Ok None
  else Ok None.

Definition has_value_and {A} (o : option A) (p : A → bool) : bool :=
  match o with
  | Some x => p x
  | None => false
  end.

Definition Val_isZeroInt `{ValHeader}
    (fuel : nat) (h : Heap) (this : addr) : res bool :=
  int_val ← Val_getInt fuel h this;
  Ok (has_value_and int_val (λ x, Z.eqb x 0)).

Definition Val_isOneInt `{ValHeader}
    (fuel : nat) (h : Heap) (this : addr) : res bool :=
  int_val ← Val_getInt fuel h this;
  Ok (has_value_and int_val (λ x, Z.eqb x 1)).

(** ** Cloning *)

Module IrCloner.

(** Modelled from the spec: [IrCloner] is defined outside this file.  It
    holds the Fusion that receives the clones and the identity map from
    each source statement to its clone; [registerClone] records one pair
    in that map. *)
Record t := mk {
  fusion : option addr;
  clones_map_ : gmap N N;
}.

Definition registerClone (src clone : addr) (ir_cloner : t) : t :=
  {| fusion := fusion ir_cloner;
     clones_map_ := <[src := clone]> (clones_map_ ir_cloner) |}.

End IrCloner.

Definition stmt_of (o : Object) : Statement :=
  match o with
  | OVal n => val_base (val_of n)
  | OExpr e => expr_base e
  end.

(** [Statement::Statement(const Statement* src, IrCloner* ir_cloner)],
    constructing the object at address [this]. *)
Definition Statement_clone
    (h : Heap) (this src : addr) (ir_cloner : IrCloner.t)
    : res (Statement * IrCloner.t) :=
  o ← load h src;
  Ok ({| name_ := name_ (stmt_of o);
         fusion_ := IrCloner.fusion ir_cloner |},
      IrCloner.registerClone src this ir_cloner).

(** Modelled from the spec: the default member initialisers of [Val] are in
    the header.  A Val starts with no producer and no consumers; the name
    of a statement that was not registered is the sentinel
    [kInvalidStmName], and both graph flags start cleared. *)
Definition kInvalidStmName : StmtNameType := 4294967295%N.
Definition no_definition : option addr := None.
Definition no_uses : list addr := [].

(** [Val::Val(const Val* src, IrCloner* ir_cloner)]. *)
Definition Val_clone
    (h : Heap) (this src : addr) (ir_cloner : IrCloner.t)
    : res (Val * IrCloner.t) :=
  '(base, ir_cloner') ← Statement_clone h this src ir_cloner;
  n ← load_Val h src;
  let s := val_of n in
  Ok ({| val_base := base;
         vtype_ := vtype_ s;
         dtype_ := dtype_ s;
         is_fusion_input_ := is_fusion_input_ s;
         is_fusion_output_ := is_fusion_output_ s;
         definition_ := no_definition;
         uses_ := no_uses |},
      ir_cloner').

(** ** The Fusion and the active-Fusion guard *)

(** Modelled from the spec: [Fusion] is defined outside this file.  Of a
    Fusion this file reads the cache-validity flag and the
    recomputation-in-progress flag of the consumer lists of tensor views. *)
Record Fusion := mkFusion {
  isTVUseInfoValid : bool;
  isUpdatingTVUseInfo : bool;
}.

(** The program state: the objects, the Fusions, and the Fusion that
    [FusionGuard::getCurFusion()] returns. *)
Record World := mkWorld {
  heap : Heap;
  fusions : gmap N Fusion;
  ACTIVE_FUSION : option addr;
}.

Definition getCurFusion (w : World) : option addr := ACTIVE_FUSION w.

Definition load_Fusion (w : World) (p : option addr) : res Fusion :=
  match p with
  | None => Raise InvalidPointer
  | Some f =>
    match fusions w !! f with
    | Some F => Ok F
    | None => Raise InvalidPointer
    end
  end.

(** Members of [Fusion] that this file calls and does not define:
    [registerVal] is given the Fusion, the address of the Val and the Val
    as constructed so far, and returns the assigned name;
    [resetTvUses] recomputes the consumer lists of the Fusion. *)
Class FusionHeader := {
  registerVal : addr → addr → Val → World → res (StmtNameType * World);
  resetTvUses : addr → World → res World;
}.

(** ** Val::Val, Expr::Expr *)

Definition Val_ctor `{FusionHeader}
    (w : World) (this : addr)
    (_vtype : ValType.t) (_dtype : DataType.t) (register_val : bool)
    : res (Val * World) :=
  match getCurFusion w with
  | None =>
    Raise (TorchCheck "No active fusion group found when creating a Val.")
  | Some fusion =>
    let mk name :=
      {| val_base := {| name_ := name; fusion_ := Some fusion |};
         vtype_ := _vtype;
         dtype_ := _dtype;
         is_fusion_input_ := false;
         is_fusion_output_ := false;
         definition_ := no_definition;
         uses_ := no_uses |} in
    if register_val then
      '(name, w') ← registerVal fusion this (mk kInvalidStmName) w;
      Ok (mk name, w')
    else Ok (mk kInvalidStmName, w)
  end.

Definition Expr_ctor (w : World) (type : ExprType) : res Expr :=
  match getCurFusion w with
  | None =>
    Raise (TorchCheck "No active fusion group found when creating an Expr.")
  | Some fusion =>
    Ok {| expr_base := {| name_ := kInvalidStmName; fusion_ := Some fusion |};
          type_ := type;
          inputs_ := [];
          outputs_ := [] |}
  end.

(** ** Val::uses *)

(** Calls into the Fusion, in the order they are made. *)
Inductive FusionCall :=
| Call_isTVUseInfoValid (fusion : addr)
| Call_isUpdatingTVUseInfo (fusion : addr)
| Call_resetTvUses (fusion : addr).

#[global] Instance FusionCall_eq_dec : EqDecision FusionCall.
Proof. solve_decision. Defined.

(** [Val::uses()] returns the calls it made into the Fusion together with
    its outcome: the list [uses_] of the object as it is on return, and the
    state on return. *)
Definition Val_uses `{FusionHeader}
    (w : World) (this : addr) : list FusionCall * res (list addr * World) :=
  match load_Val (heap w) this with
  | Ok n =>
    let v := val_of n in
    if bool_decide (vtype_ v = ValType.TensorView) then
      match Val_fusion v, load_Fusion w (Val_fusion v) with
      | Some f, Ok F =>
        if negb (isTVUseInfoValid F) then
          if negb (isUpdatingTVUseInfo F) then
            ([Call_isTVUseInfoValid f; Call_isUpdatingTVUseInfo f;
              Call_resetTvUses f],
             w' ← resetTvUses f w;
             n' ← load_Val (heap w') this;
             Ok (uses_ (val_of n'), w'))
          else
            ([Call_isTVUseInfoValid f; Call_isUpdatingTVUseInfo f],
             Ok (uses_ v, w))
        else ([Call_isTVUseInfoValid f], Ok (uses_ v, w))
      | _, _ => ([], Raise InvalidPointer)
      end
    else ([], Ok (uses_ v, w))
  | Raise e => ([], Raise e)
  | OutOfFuel => ([], OutOfFuel)
  end.

(** The number of recomputations of the consumer lists among the calls. *)
Definition is_resetTvUses (c : FusionCall) : bool :=
  match c with
  | Call_resetTvUses _ => true
  | _ => false
  end.

Definition recomputations (calls : list FusionCall) : nat :=
  length (filter (λ c, is_resetTvUses c = true) calls).

(** ** Writes to the edge members of a Val *)

(** [definition_ = d] and [uses_ = u] on a Val, and a change of the [Val]
    subobject of an object of any of the concrete classes. *)
Definition set_definition (d : option addr) (v : Val) : Val :=
  {| val_base := val_base v; vtype_ := vtype_ v; dtype_ := dtype_ v;
     is_fusion_input_ := is_fusion_input_ v;
     is_fusion_output_ := is_fusion_output_ v;
     definition_ := d; uses_ := uses_ v |}.

Definition set_uses (u : list addr) (v : Val) : Val :=
  {| val_base := val_base v; vtype_ := vtype_ v; dtype_ := dtype_ v;
     is_fusion_input_ := is_fusion_input_ v;
     is_fusion_output_ := is_fusion_output_ v;
     definition_ := definition_ v; uses_ := u |}.

Definition map_val (f : Val → Val) (n : ValNode) : ValNode :=
  match n with
  | Bool_ v lit => Bool_ (f v) lit
  | Double_ v lit => Double_ (f v) lit
  | Int_ v lit => Int_ (f v) lit
  | NamedScalar_ v name => NamedScalar_ (f v) name
  | OtherVal v => OtherVal (f v)
  end.

Definition set_outputs (outs : list addr) (e : Expr) : Expr :=
  {| expr_base := expr_base e; type_ := type_ e;
     inputs_ := inputs_ e; outputs_ := outs |}.

(** ** One instance of the header members, and a small graph *)

Module Example.

(** Modelled from the spec: the inline members of [Val].  The producer
    accessor returns the stored producer; the scalar kinds are the
    literal scalars and the named symbolic scalars; an integer Val is a
    scalar whose data type is the integer one. *)
Definition header : ValHeader := {|
  definition v := definition_ v;
  isScalar v :=
    bool_decide (vtype_ v = ValType.Scalar)
    || bool_decide (vtype_ v = ValType.NamedScalar);
  isAnInt v :=
    (bool_decide (vtype_ v = ValType.Scalar)
     || bool_decide (vtype_ v = ValType.NamedScalar))
    && bool_decide (dtype_ v = DataType.Int);
|}.

(** Modelled from the spec: the structural-equality rule of a Val is not
    specified; the instance is the rule of the [Statement] base class,
    equality of the two pointers. *)
Definition pointer_sameAs : ValSameAs := {|
  Val_sameAs h a b := Ok (bool_decide (a = b));
|}.

Definition set_valid (F : Fusion) : Fusion :=
  {| isTVUseInfoValid := true; isUpdatingTVUseInfo := false |}.

(** Modelled from the spec: registration hands out a name, and the
    recomputation of the consumer lists leaves the cache valid. *)
Definition fusion_header : FusionHeader := {|
  registerVal f this v w := Ok (7%N, w);
  resetTvUses f w :=
    Ok {| heap := heap w;
          fusions := set_valid <$> fusions w;
          ACTIVE_FUSION := ACTIVE_FUSION w |};
|}.

Definition leaf (f : addr) (name : StmtNameType)
    (vt : ValType.t) (dt : DataType.t) : Val :=
  {| val_base := {| name_ := name; fusion_ := Some f |};
     vtype_ := vt; dtype_ := dt;
     is_fusion_input_ := false; is_fusion_output_ := false;
     definition_ := None; uses_ := [] |}.

(** Fusion 100 holds [c = add(a, b)] with the literals [a = 2] and
    [b = 3], a named scalar [n], a tensor view [tv], the literals
    [zero = 0] and [one = 1], [neg(a)] with output [d], and a second
    [add(a, b)] with output [c2]; Fusion 200 holds the literal [x]. *)
Definition a : addr := 1%N.
Definition b : addr := 2%N.
Definition add : addr := 3%N.
Definition c : addr := 4%N.
Definition n : addr := 5%N.
Definition tv : addr := 6%N.
Definition zero : addr := 7%N.
Definition one : addr := 8%N.
Definition neg : addr := 9%N.
Definition d : addr := 10%N.
Definition x : addr := 11%N.
Definition add2 : addr := 12%N.
Definition c2 : addr := 13%N.

Definition int_leaf (f : addr) (name : StmtNameType) : Val :=
  leaf f name ValType.Scalar DataType.Int.

Definition graph : gmap N Object :=
  list_to_map [
    (a, OVal (Int_ (set_uses [add; neg; add2] (int_leaf 100 0)) (mkLiteral true (Some 2%Z))));
    (b, OVal (Int_ (set_uses [add; add2] (int_leaf 100 1)) (mkLiteral true (Some 3%Z))));
    (add, OExpr {| expr_base := {| name_ := 0%N; fusion_ := Some 100%N |};
                   type_ := 1%N; inputs_ := [a; b]; outputs_ := [c] |});
    (c, OVal (Int_ (set_definition (Some add) (int_leaf 100 2)) (mkLiteral false None)));
    (n, OVal (NamedScalar_ (leaf 100 0 ValType.NamedScalar DataType.Int) "threadIdx.x"));
    (tv, OVal (OtherVal (set_uses [add] (leaf 100 0 ValType.TensorView DataType.Double))));
    (zero, OVal (Int_ (int_leaf 100 3) (mkLiteral true (Some 0%Z))));
    (one, OVal (Int_ (int_leaf 100 4) (mkLiteral true (Some 1%Z))));
    (neg, OExpr {| expr_base := {| name_ := 1%N; fusion_ := Some 100%N |};
                   type_ := 0%N; inputs_ := [a]; outputs_ := [d] |});
    (d, OVal (Int_ (set_definition (Some neg) (int_leaf 100 5)) (mkLiteral false None)));
    (x, OVal (Int_ (int_leaf 200 0) (mkLiteral true (Some 5%Z))));
    (add2, OExpr {| expr_base := {| name_ := 2%N; fusion_ := Some 100%N |};
                    type_ := 1%N; inputs_ := [a; b]; outputs_ := [c2] |});
    (c2, OVal (Int_ (set_definition (Some add2) (int_leaf 100 6)) (mkLiteral false None)))
  ].

Definition world (valid updating : bool) (active : option addr) : World :=
  {| heap := graph;
     fusions := {[ 100%N := {| isTVUseInfoValid := valid;
                               isUpdatingTVUseInfo := updating |} ]};
     ACTIVE_FUSION := active |}.

Definition cloner : IrCloner.t :=
  {| IrCloner.fusion := Some 200%N; IrCloner.clones_map_ := ∅ |}.

End Example.

(** ** Statement::asVal, Statement::asExpr *)

(** Modelled from the spec: [isVal()] and [isExpr()] are virtual members
    declared in the header; they are capability queries with no effect, true
    on the objects of the matching variant. *)
Definition Statement_isVal (o : Object) : bool :=
  match o with
  | OVal _ => true
  | OExpr _ => false
  end.

Definition Statement_isExpr (o : Object) : bool :=
  match o with
  | OVal _ => false
  | OExpr _ => true
  end.

(** The cast returns [this] with the static type of the variant. *)
Definition Statement_asVal (h : Heap) (this : addr) : res addr :=
  o ← load h this;
  if Statement_isVal o then Ok this
  else Raise (InternalAssert "Cannot cast to Val as this is not a Val.").

Definition Statement_asExpr (h : Heap) (this : addr) : res addr :=
  o ← load h this;
  if Statement_isExpr o then Ok this
  else Raise (InternalAssert "Cannot cast to Expr as this is not a Expr.").

(** ** Val::getDataType *)

Definition Val_getDataType (h : Heap) (this : addr) : res (option DataType.t) :=
  n ← load_Val h this;
  if bool_decide (dtype_ (val_of n) ≠ DataType.Null)
  then Ok (Some (dtype_ (val_of n)))
  else Raise (InternalAssert "Value does not have a data type.").

(** ** Expr::Expr(const Expr*, IrCloner* ) *)

(** [IrCloner::clone] on a vector of Vals is defined outside this file: it
    returns the clones of the elements, and may allocate objects and extend
    the identity map on the way. *)
Class ClonerHeader := {
  IrCloner_clone :
    list addr → Heap → IrCloner.t → res (list addr * Heap * IrCloner.t);
}.

(** The base is constructed first, then the members in the order of the
    initialiser list; each initialiser reads the source when it runs, so
    [src->outputs_] is read in the heap that the cloning of the inputs
    leaves. *)
Definition Expr_clone `{ClonerHeader}
    (h : Heap) (this src : addr) (ir_cloner : IrCloner.t)
    : res (Expr * Heap * IrCloner.t) :=
  '(base, cl1) ← Statement_clone h this src ir_cloner;
  e ← load_Expr h src;
  let type := type_ e in
  '(ins, h1, cl2) ← IrCloner_clone (inputs_ e) h cl1;
  e1 ← load_Expr h1 src;
  '(outs, h2, cl3) ← IrCloner_clone (outputs_ e1) h1 cl2;
  Ok ({| expr_base := base;
         type_ := type;
         inputs_ := ins;
         outputs_ := outs |}, h2, cl3).

(** The answer of the handler of each class on a Val with no producer. *)
Definition leaf_answer (n : ValNode) : bool :=
  match n with
  | Bool_ _ lit => isConst lit
  | Double_ _ lit => isConst lit
  | Int_ _ lit => isConst lit
  | NamedScalar_ _ _ => false
  | OtherVal _ => true
  end.

(** ** Graphs on which ConstCheck returns *)

(** [ranked h rank]: every producer named by a Val of [h] is an Expr of [h],
    every input of that Expr is a Val of [h], and the rank of the input is
    below the rank of the Val; so the chains of producers are finite. *)
Definition input_below (h : Heap) (rank : addr → nat) (p i : addr) : bool :=
  match h !! i with
  | Some (OVal _) => bool_decide (rank i < rank p)
  | _ => false
  end.

Definition producer_below `{ValHeader}
    (h : Heap) (rank : addr → nat) (p : addr) (o : Object) : bool :=
  match o with
  | OExpr _ => true
  | OVal n =>
    match definition (val_of n) with
    | None => true
    | Some d =>
      match h !! d with
      | Some (OExpr e) => forallb (input_below h rank p) (inputs_ e)
      | _ => false
      end
    end
  end.

Definition ranked `{ValHeader} (h : Heap) (rank : addr → nat) : Prop :=
  map_Forall (λ p o, producer_below h rank p o = true) h.

(** ** Writes to the base of an Expr *)

Definition set_expr_base (s : Statement) (e : Expr) : Expr :=
  {| expr_base := s; type_ := type_ e;
     inputs_ := inputs_ e; outputs_ := outputs_ e |}.

(** ** A graph with a symbolic scalar *)

Module Symbolic.

(** Fusion 100 holds the named scalar [s], the constant literal [k = 4],
    [m = mul(s, k)] and [m2 = mul(k, s)], the integer [u] that is not a
    constant, the constant boolean [t], and a Val [untyped] with no data
    type. *)
Definition s : addr := 1%N.
Definition k : addr := 2%N.
Definition mul : addr := 3%N.
Definition m : addr := 4%N.
Definition mul2 : addr := 5%N.
Definition m2 : addr := 6%N.
Definition u : addr := 7%N.
Definition t : addr := 8%N.
Definition untyped : addr := 9%N.

Definition expr (name : StmtNameType) (type : ExprType)
    (ins outs : list addr) : Object :=
  OExpr {| expr_base := {| name_ := name; fusion_ := Some 100%N |};
           type_ := type; inputs_ := ins; outputs_ := outs |}.

Definition graph : gmap N Object :=
  list_to_map [
    (s, OVal (NamedScalar_
                (Example.leaf 100 0 ValType.NamedScalar DataType.Int)
                "blockDim.x"));
    (k, OVal (Int_ (Example.int_leaf 100 1) (mkLiteral true (Some 4%Z))));
    (mul, expr 0 2 [s; k] [m]);
    (m, OVal (Int_ (set_definition (Some mul) (Example.int_leaf 100 2))
                (mkLiteral false None)));
    (mul2, expr 1 2 [k; s] [m2]);
    (m2, OVal (Int_ (set_definition (Some mul2) (Example.int_leaf 100 3))
                 (mkLiteral false None)));
    (u, OVal (Int_ (Example.int_leaf 100 4) (mkLiteral false None)));
    (t, OVal (Bool_ (Example.leaf 100 0 ValType.Scalar DataType.Bool)
                (mkLiteral true (Some true))));
    (untyped, OVal (OtherVal
                (Example.leaf 100 0 (ValType.Other 0) DataType.Null)))
  ].

Definition rank (p : N) : nat :=
  if bool_decide (p = m) || bool_decide (p = m2) then 1 else 0.

(** Modelled from the spec: a cloner of vectors for the examples, which
    answers each element from the identity map and leaves the heap and the
    map as they are; an element with no entry is its own image. *)
Definition lookup_cloner : ClonerHeader := {|
  IrCloner_clone l h cl :=
    Ok (map (λ p, default p (IrCloner.clones_map_ cl !! p)) l, h, cl);
|}.

(** A cloner of vectors that writes to the heap: it gives the Expr at
    [Example.add], if there is one, the outputs [[Example.d]], returns the
    elements as their own images, and keeps the map. *)
Definition rewriting_cloner : ClonerHeader := {|
  IrCloner_clone l h cl :=
    Ok (l,
        alter (λ o, match o with
                    | OExpr e => OExpr (set_outputs [Example.d] e)
                    | OVal n => OVal n
                    end) Example.add h,
        cl);
|}.

(** A registration that fails, for the error path of the constructor. *)
Definition failing_fusion_header : FusionHeader := {|
  registerVal f this v w :=
    Raise (TorchCheck "was not found in the active fusion.");
  resetTvUses f w := Ok w;
|}.

End Symbolic.

(** * Properties *)

(** ** Loads *)

Lemma load_Val_lookup (h : gmap N Object) p n :
  h !! p = Some (OVal n) → load_Val h p = Ok n.
Proof. intros Hp. unfold load_Val, load. by rewrite Hp. Qed.

Lemma load_Expr_lookup (h : gmap N Object) p e :
  h !! p = Some (OExpr e) → load_Expr h p = Ok e.
Proof. intros Hp. unfold load_Expr, load. by rewrite Hp. Qed.

Lemma any_of_elem_of (l : list N) (o : N) :
  any_of l (λ input, bool_decide (input = o)) = bool_decide (o ∈ l).
Proof.
  unfold any_of. induction l as [|y l IH].
  - rewrite bool_decide_eq_false_2; [done | apply not_elem_of_nil].
  - simpl. rewrite IH. destruct (decide (y = o)) as [->|Hne].
    + rewrite bool_decide_eq_true_2 by done. simpl.
      symmetry. apply bool_decide_eq_true_2, list_elem_of_here.
    + rewrite (bool_decide_eq_false_2 (y = o)) by done. simpl.
      apply bool_decide_ext. rewrite elem_of_cons. intuition congruence.
Qed.

(** ** isProducerOf and isConsumerOf *)

(** What [this->isProducerOf(other)] computes on two Vals of one Fusion. *)
Lemma Val_isProducerOf_same_fusion `{ValHeader}
    (h : gmap N Object) (this other : N) (nt no : ValNode) :
  h !! this = Some (OVal nt) →
  h !! other = Some (OVal no) →
  Val_fusion (val_of nt) = Val_fusion (val_of no) →
  Val_isProducerOf h this (Some other) =
    match definition (val_of nt) with
    | None => Ok false
    | Some d => e ← load_Expr h d; Ok (bool_decide (other ∈ inputs_ e))
    end.
Proof.
  intros Ht Ho Hf. unfold Val_isProducerOf.
  rewrite (load_Val_lookup _ _ _ Ht), (load_Val_lookup _ _ _ Ho). simpl.
  rewrite decide_True by done.
  destruct (definition (val_of nt)) as [d|]; [|done].
  destruct (load_Expr h d) as [e| |]; simpl; [|done..].
  by rewrite any_of_elem_of.
Qed.

(** C1, as the code has it: for two Vals [a] and [b] of one Fusion,
    [a.isProducerOf(b)] is true exactly when [a] itself has a producer and
    that producer lists [b] among its inputs, by equality of pointers; it is
    false when [a] has no producer.  When the two Vals belong to different
    Fusions the call fails its internal assertion, and so does a null
    argument. *)
Theorem C1_isProducerOf_reads_own_definition `{ValHeader}
    (h : gmap N Object) (a b : N) (na nb : ValNode) :
  h !! a = Some (OVal na) →
  h !! b = Some (OVal nb) →
  (Val_fusion (val_of na) = Val_fusion (val_of nb) →
     (definition (val_of na) = None →
        Val_isProducerOf h a (Some b) = Ok false)
     ∧ (∀ d e, definition (val_of na) = Some d → h !! d = Some (OExpr e) →
        Val_isProducerOf h a (Some b) = Ok (bool_decide (b ∈ inputs_ e)))
     ∧ (Val_isProducerOf h a (Some b) = Ok true ↔
        ∃ d e, definition (val_of na) = Some d ∧ h !! d = Some (OExpr e)
               ∧ b ∈ inputs_ e))
  ∧ (Val_fusion (val_of na) ≠ Val_fusion (val_of nb) →
     Val_isProducerOf h a (Some b) =
       Raise (InternalAssert "fusion() == other->fusion()"))
  ∧ Val_isProducerOf h a None = Raise (InternalAssert "other != nullptr").
Proof.
  intros Ha Hb. split; [|split; [|done]].
  - intros Hf. rewrite (Val_isProducerOf_same_fusion h a b na nb Ha Hb Hf).
    split; [|split].
    + by intros ->.
    + intros d e -> He. by rewrite (load_Expr_lookup _ _ _ He).
    + split.
      * destruct (definition (val_of na)) as [d|] eqn:Hd; [|done].
        unfold load_Expr, load.
        destruct (h !! d) as [[?|e]|] eqn:He; simpl; try done.
        intros [= Hin]. apply bool_decide_eq_true_1 in Hin. eauto.
      * intros (d & e & -> & He & Hin).
        rewrite (load_Expr_lookup _ _ _ He). simpl.
        by rewrite bool_decide_eq_true_2.
  - intros Hf. unfold Val_isProducerOf.
    rewrite (load_Val_lookup _ _ _ Ha), (load_Val_lookup _ _ _ Hb). simpl.
    by rewrite decide_False.
Qed.

(** C10: [a.isConsumerOf(b)] is [b.isProducerOf(a)]; on two Vals of one
    Fusion it is true exactly when [b] has a producer and [a] is, by equality
    of pointers, among the inputs of that producer. *)
Theorem C10_isConsumerOf_is_swapped_isProducerOf `{ValHeader}
    (h : gmap N Object) (a b : N) (na nb : ValNode) :
  h !! a = Some (OVal na) →
  h !! b = Some (OVal nb) →
  Val_fusion (val_of na) = Val_fusion (val_of nb) →
  Val_isConsumerOf h a (Some b) = Val_isProducerOf h b (Some a)
  ∧ (definition (val_of nb) = None →
       Val_isConsumerOf h a (Some b) = Ok false)
  ∧ (∀ d e, definition (val_of nb) = Some d → h !! d = Some (OExpr e) →
       Val_isConsumerOf h a (Some b) = Ok (bool_decide (a ∈ inputs_ e)))
  ∧ (Val_isConsumerOf h a (Some b) = Ok true ↔
       ∃ d e, definition (val_of nb) = Some d ∧ h !! d = Some (OExpr e)
              ∧ a ∈ inputs_ e).
Proof.
  intros Ha Hb Hf. split; [done|].
  unfold Val_isConsumerOf.
  rewrite (Val_isProducerOf_same_fusion h b a nb na Hb Ha (eq_sym Hf)).
  split; [|split].
  - by intros ->.
  - intros d e -> He. by rewrite (load_Expr_lookup _ _ _ He).
  - split.
    + destruct (definition (val_of nb)) as [d|] eqn:Hd; [|done].
      unfold load_Expr, load.
      destruct (h !! d) as [[?|e]|] eqn:He; simpl; try done.
      intros [= Hin]. apply bool_decide_eq_true_1 in Hin. eauto.
    + intros (d & e & -> & He & Hin).
      rewrite (load_Expr_lookup _ _ _ He). simpl.
      by rewrite bool_decide_eq_true_2.
Qed.

(** In the example graph [c = add(a, b)], so the producer of [c] lists [a]
    among its inputs; yet [a.isProducerOf(c)] is false, because [a] has no
    producer of its own, and [c.isProducerOf(a)] is true although [a] has no
    producer at all. *)
Lemma C1_counterexample :
  @Val_isProducerOf Example.header Example.graph Example.a (Some Example.c)
    = Ok false
  ∧ (∃ nc d e,
       Example.graph !! Example.c = Some (OVal nc)
       ∧ @definition Example.header (val_of nc) = Some d
       ∧ Example.graph !! d = Some (OExpr e)
       ∧ Example.a ∈ inputs_ e)
  ∧ ¬ (@Val_isProducerOf Example.header Example.graph Example.a
         (Some Example.c) = Ok true
       ↔ ∃ nc d e,
           Example.graph !! Example.c = Some (OVal nc)
           ∧ @definition Example.header (val_of nc) = Some d
           ∧ Example.graph !! d = Some (OExpr e)
           ∧ Example.a ∈ inputs_ e)
  ∧ @Val_isProducerOf Example.header Example.graph Example.c (Some Example.a)
    = Ok true
  ∧ (∃ na,
       Example.graph !! Example.a = Some (OVal na)
       ∧ @definition Example.header (val_of na) = None).
Proof.
  assert (∃ nc d e,
            Example.graph !! Example.c = Some (OVal nc)
            ∧ @definition Example.header (val_of nc) = Some d
            ∧ Example.graph !! d = Some (OExpr e)
            ∧ Example.a ∈ inputs_ e) as Hproducer.
  { eexists _, _, _. split; [by vm_compute|]. split; [by vm_compute|].
    split; [by vm_compute|]. apply list_elem_of_here. }
  assert (@Val_isProducerOf Example.header Example.graph Example.a
            (Some Example.c) = Ok false) as Hfalse by (by vm_compute).
  split; [exact Hfalse|]. split; [exact Hproducer|]. split.
  - intros [_ Hback]. specialize (Hback Hproducer).
    rewrite Hfalse in Hback. discriminate Hback.
  - split; [by vm_compute|]. eexists. split; by vm_compute.
Qed.

Lemma C1_witness :
  @Val_isProducerOf Example.header Example.graph Example.c (Some Example.b)
    = Ok true
  ∧ @Val_isProducerOf Example.header Example.graph Example.a (Some Example.x)
    = Raise (InternalAssert "fusion() == other->fusion()").
Proof.
  split.
  - refine (proj2 (proj2 (proj2 (proj1
      (C1_isProducerOf_reads_own_definition (H := Example.header)
Example.graph Example.c Example.b _ _ _ _) _))) _);
      [by vm_compute..|].
    exists Example.add. eexists. split; [by vm_compute|].
    split; [by vm_compute|]. apply list_elem_of_further, list_elem_of_here.
  - refine (proj1 (proj2
      (C1_isProducerOf_reads_own_definition (H := Example.header)
Example.graph Example.a Example.x _ _ _ _)) _); by vm_compute.
Defined.

Lemma C10_witness :
  @Val_isConsumerOf Example.header Example.graph Example.a (Some Example.c)
    = Ok true.
Proof.
  refine (proj2 (proj2 (proj2 (proj2
    (C10_isConsumerOf_is_swapped_isProducerOf (H := Example.header)
Example.graph Example.a Example.c _ _ _ _ _)))) _);
    [by vm_compute..|].
  exists Example.add. eexists. split; [by vm_compute|].
  split; [by vm_compute|]. apply list_elem_of_here.
Defined.

(** ** Clone constructors *)

Lemma val_of_map_val f n : val_of (map_val f n) = f (val_of n).
Proof. by destruct n. Qed.

(** C2, as the code has it: the clone constructor of [Statement] copies
    the name from the source, takes the owner from the cloner (the Fusion
    the clones are made for) and not from the source, and records the pair
    of the source and the new statement in the cloner's map, whose other
    entries and whose Fusion stay as they were. *)
Theorem C2_Statement_clone_name_and_cloner_fusion
    (h : gmap N Object) (this src : N) (ir_cloner : IrCloner.t) (o : Object) :
  h !! src = Some o →
  ∃ s ir_cloner',
    Statement_clone h this src ir_cloner = Ok (s, ir_cloner')
    ∧ name_ s = name_ (stmt_of o)
    ∧ fusion_ s = IrCloner.fusion ir_cloner
    ∧ IrCloner.clones_map_ ir_cloner' !! src = Some this
    ∧ (∀ k, k ≠ src →
         IrCloner.clones_map_ ir_cloner' !! k
         = IrCloner.clones_map_ ir_cloner !! k)
    ∧ IrCloner.fusion ir_cloner' = IrCloner.fusion ir_cloner.
Proof.
  intros Ho. unfold Statement_clone, load. rewrite Ho. simpl.
  eexists _, _. split; [done|]. simpl.
  split; [done|]. split; [done|]. split; [apply lookup_insert_eq|].
  split; [|done]. intros k Hk. by apply lookup_insert_ne.
Qed.

(** The literal [a] belongs to Fusion 100; cloned through a cloner for
    Fusion 200 the new statement has the name of [a] and belongs to Fusion
    200: the owner of the source is not copied. *)
Lemma C2_counterexample :
  ∃ o s ir_cloner',
Example.graph !! Example.a = Some o
    ∧ Statement_clone Example.graph 50%N Example.a Example.cloner
      = Ok (s, ir_cloner')
    ∧ fusion_ (stmt_of o) = Some 100%N
    ∧ fusion_ s = Some 200%N
    ∧ fusion_ s ≠ fusion_ (stmt_of o).
Proof.
  eexists _, _, _. split; [by vm_compute|]. split; [by vm_compute|].
  split; [done|]. split; [done|]. simpl. congruence.
Qed.

Lemma C2_witness :
  ∃ s ir_cloner',
    Statement_clone Example.graph 50%N Example.a Example.cloner
      = Ok (s, ir_cloner')
    ∧ name_ s = 0%N
    ∧ fusion_ s = Some 200%N
    ∧ IrCloner.clones_map_ ir_cloner' !! Example.a = Some 50%N.
Proof.
  destruct (C2_Statement_clone_name_and_cloner_fusion
Example.graph 50%N Example.a Example.cloner _
              ltac:(by vm_compute))
    as (s & cl' & Hrun & Hname & Hfusion & Hmap & _).
  exists s, cl'. split; [exact Hrun|]. split; [exact Hname|].
  split; [exact Hfusion|exact Hmap].
Defined.

(** C8: the clone constructor of [Val] builds the [Statement] base through
    the clone constructor of [Statement], copies the kind tag, the data-type
    tag and the two graph flags from the source, and leaves [definition_]
    and [uses_] at their initial values (no producer, no consumers); the
    clone is the same whatever the producer and the consumers of the source
    are. *)
Theorem C8_Val_clone_copies_tags_and_flags_only
    (h : gmap N Object) (this src : N) (ir_cloner : IrCloner.t) (n : ValNode) :
  h !! src = Some (OVal n) →
  (∃ base v' ir_cloner',
      Statement_clone h this src ir_cloner = Ok (base, ir_cloner')
      ∧ Val_clone h this src ir_cloner = Ok (v', ir_cloner')
      ∧ val_base v' = base
      ∧ vtype_ v' = vtype_ (val_of n)
      ∧ dtype_ v' = dtype_ (val_of n)
      ∧ is_fusion_input_ v' = is_fusion_input_ (val_of n)
      ∧ is_fusion_output_ v' = is_fusion_output_ (val_of n)
      ∧ definition_ v' = None
      ∧ uses_ v' = [])
  ∧ (∀ d u,
      Val_clone
        (<[src := OVal (map_val (λ v, set_uses u (set_definition d v)) n)]> h)
        this src ir_cloner
      = Val_clone h this src ir_cloner).
Proof.
  intros Hn. split.
  - unfold Val_clone, Statement_clone.
    rewrite (load_Val_lookup _ _ _ Hn). unfold load. rewrite Hn. simpl.
    by eexists _, _, _.
  - intros d u. unfold Val_clone, Statement_clone, load_Val, load.
    rewrite lookup_insert_eq, Hn. simpl.
    by rewrite val_of_map_val.
Qed.

Lemma C8_witness :
  ∃ v' ir_cloner',
    Val_clone Example.graph 50%N Example.c Example.cloner = Ok (v', ir_cloner')
    ∧ vtype_ v' = ValType.Scalar
    ∧ dtype_ v' = DataType.Int
    ∧ definition_ v' = None
    ∧ uses_ v' = [].
Proof.
  destruct (proj1 (C8_Val_clone_copies_tags_and_flags_only
Example.graph 50%N Example.c Example.cloner _
              ltac:(by vm_compute)))
    as (base & v' & cl' & _ & Hrun & _ & Hvt & Hdt & _ & _ & Hd & Hu).
  exists v', cl'. split; [exact Hrun|]. split; [exact Hvt|].
  split; [exact Hdt|]. split; [exact Hd|exact Hu].
Defined.

(** ** Construction under the active Fusion *)

(** C5: with no active Fusion the constructor of [Val] and the constructor
    of [Expr] both fail their [TORCH_CHECK], whatever the arguments; and a
    Val or an Expr that is constructed is owned by the Fusion that was
    active, so no node comes out without an owner. *)
Theorem C5_construction_requires_active_fusion `{FusionHeader} (w : World) :
  (getCurFusion w = None →
     (∀ this vt dt register_val,
        Val_ctor w this vt dt register_val =
          Raise (TorchCheck "No active fusion group found when creating a Val."))
     ∧ (∀ type,
        Expr_ctor w type =
          Raise (TorchCheck "No active fusion group found when creating an Expr.")))
  ∧ (∀ this vt dt register_val v w',
       Val_ctor w this vt dt register_val = Ok (v, w') →
       is_Some (Val_fusion v) ∧ Val_fusion v = getCurFusion w)
  ∧ (∀ type e,
       Expr_ctor w type = Ok e →
       is_Some (Expr_fusion e) ∧ Expr_fusion e = getCurFusion w).
Proof.
  split; [|split].
  - intros Hnone. unfold Val_ctor, Expr_ctor. rewrite Hnone. by split.
  - intros this vt dt reg v w'. unfold Val_ctor.
    destruct (getCurFusion w) as [f|]; [|done].
    destruct reg.
    + destruct (registerVal f this _ w) as [[name w'']| |]; simpl; [|done..].
      intros [= <- <-]. by split; [eexists|].
    + intros [= <- <-]. by split; [eexists|].
  - intros type e. unfold Expr_ctor.
    destruct (getCurFusion w) as [f|]; [|done].
    intros [= <-]. by split; [eexists|].
Qed.

Lemma C5_witness :
  @Val_ctor Example.fusion_header (Example.world true false None) 50%N
     ValType.Scalar DataType.Int true
   = Raise (TorchCheck "No active fusion group found when creating a Val.")
  ∧ Expr_ctor (Example.world true false None) 1%N
   = Raise (TorchCheck "No active fusion group found when creating an Expr.")
  ∧ (∃ v w',
       @Val_ctor Example.fusion_header (Example.world true false (Some 100%N))
          50%N ValType.Scalar DataType.Int true = Ok (v, w')
       ∧ Val_fusion v = Some 100%N).
Proof.
  split; [|split].
  - apply (proj1 (C5_construction_requires_active_fusion
                    (H := Example.fusion_header)
                    (Example.world true false None))).
    reflexivity.
  - apply (proj1 (C5_construction_requires_active_fusion
                    (H := Example.fusion_header)
                    (Example.world true false None))).
    reflexivity.
  - eexists _, _. split; [by vm_compute|].
    refine (proj2 (proj1 (proj2 (C5_construction_requires_active_fusion
                    (H := Example.fusion_header)
                    (Example.world true false (Some 100%N))))
                    50%N ValType.Scalar DataType.Int true _ _ _)).
    by vm_compute.
Defined.

(** ** Val::uses *)

(** C4: [uses()] on a Val makes one call of the recomputation of the
    consumer lists exactly when the kind of the Val is TensorView, the
    cache-validity flag of its Fusion is false and the Fusion is not in the
    middle of a recomputation, and then returns the list stored after the
    recomputation; in every other case it makes no such call and returns
    the stored list with the state untouched.  For a kind other than
    TensorView it makes no call into the Fusion at all. *)
Theorem C4_uses_recomputes_iff_stale_tensor_view `{FusionHeader}
    (w : World) (this : N) (n : ValNode) :
  heap w !! this = Some (OVal n) →
  (vtype_ (val_of n) ≠ ValType.TensorView →
     Val_uses w this = ([], Ok (uses_ (val_of n), w)))
  ∧ (∀ f F,
       Val_fusion (val_of n) = Some f →
       fusions w !! f = Some F →
       (recomputations (Val_uses w this).1 = 1 ↔
          vtype_ (val_of n) = ValType.TensorView
          ∧ isTVUseInfoValid F = false
          ∧ isUpdatingTVUseInfo F = false)
       ∧ (recomputations (Val_uses w this).1 ≠ 1 →
            recomputations (Val_uses w this).1 = 0
            ∧ (Val_uses w this).2 = Ok (uses_ (val_of n), w))
       ∧ (recomputations (Val_uses w this).1 = 1 →
            (Val_uses w this).2 =
              (w' ← resetTvUses f w;
               n' ← load_Val (heap w') this;
               Ok (uses_ (val_of n'), w')))).
Proof.
  intros Hn. split.
  - intros Hvt. unfold Val_uses. rewrite (load_Val_lookup _ _ _ Hn).
    by rewrite bool_decide_eq_false_2.
  - intros f F Hf HF. unfold Val_uses.
    rewrite (load_Val_lookup _ _ _ Hn). unfold load_Fusion.
    rewrite Hf, HF.
    destruct (decide (vtype_ (val_of n) = ValType.TensorView)) as [Hvt|Hvt].
    + rewrite bool_decide_eq_true_2 by done.
      destruct (isTVUseInfoValid F), (isUpdatingTVUseInfo F); simpl;
        (split; [split; [try done; intros; by repeat split
                        |try done; intros (_ & ? & ?); done]
                |split; [try done; intros; done | try done]]).
    + rewrite bool_decide_eq_false_2 by done. simpl.
      split; [split; [done|intros [? _]; done]|]. by split.
Qed.

Lemma C4_witness :
  recomputations
    (@Val_uses Example.fusion_header (Example.world false false None)
Example.tv).1 = 1
  ∧ (∃ l,
       @Val_uses Example.fusion_header (Example.world false false None)
Example.a
       = ([], Ok (l, Example.world false false None))).
Proof.
  split.
  - refine (proj2 (proj1 (proj2
      (C4_uses_recomputes_iff_stale_tensor_view (H := Example.fusion_header)
         (Example.world false false None) Example.tv _ _)
      100%N _ _ _)) _); [by vm_compute..|].
    by repeat split.
  - eexists. refine (proj1
      (C4_uses_recomputes_iff_stale_tensor_view (H := Example.fusion_header)
         (Example.world false false None) Example.a _ _) _);
      [by vm_compute|done].
Defined.

(** Two calls of [uses()] in a row on a tensor view with a stale cache,
    with a recomputation that leaves the cache valid: the first call
    recomputes, the second does not. *)
Example uses_twice_recomputes_once :
  ∃ l w1,
    @Val_uses Example.fusion_header (Example.world false false None) Example.tv
      = ([Call_isTVUseInfoValid 100%N; Call_isUpdatingTVUseInfo 100%N;
          Call_resetTvUses 100%N], Ok (l, w1))
    ∧ @Val_uses Example.fusion_header w1 Example.tv
      = ([Call_isTVUseInfoValid 100%N], Ok (l, w1)).
Proof. eexists _, _. split; by vm_compute. Qed.

(** ** Expr::sameAs *)

Section SameAs.
Context `{ValSameAs}.

(** The loop over a range [k, k + m) answers true exactly when every
    index of the range reads an input on both sides and the two inputs
    are the same by the rule of the Val. *)
Lemma sameAs_loop_true (h : gmap N Object) (e e2 : Expr) (m k : nat) :
  sameAs_loop h e e2 (seq k m) = Ok true ↔
  ∀ i, k ≤ i < k + m →
    ∃ a b, inputs_ e !! i = Some a ∧ inputs_ e2 !! i = Some b
           ∧ Val_sameAs h a b = Ok true.
Proof.
  revert k. induction m as [|m IH]; intros k; simpl.
  - split; [intros _ i Hi; lia|done].
  - unfold input.
    split.
    + destruct (inputs_ e !! k) as [a|] eqn:Ha; simpl; [|done].
      destruct (inputs_ e2 !! k) as [b|] eqn:Hb; simpl; [|done].
      destruct (Val_sameAs h a b) as [[]| |] eqn:Hs; simpl; try done.
      intros Hrest i Hi. destruct (decide (i = k)) as [->|Hne].
      * eauto.
      * apply (proj1 (IH (S k)) Hrest). lia.
    + intros Hall.
      destruct (Hall k ltac:(lia)) as (a & b & -> & -> & Hs). simpl.
      rewrite Hs. simpl. apply IH. intros i Hi. apply Hall. lia.
Qed.

Lemma sameAs_loop_Forall2 (h : gmap N Object) (e e2 : Expr) :
  length (inputs_ e) = length (inputs_ e2) →
  sameAs_loop h e e2 (irange (length (inputs_ e))) = Ok true ↔
  Forall2 (λ a b, Val_sameAs h a b = Ok true) (inputs_ e) (inputs_ e2).
Proof.
  intros Hlen. unfold irange. rewrite sameAs_loop_true.
  rewrite Forall2_same_length_lookup. split.
  - intros Hall. split; [done|]. intros i a b Ha Hb.
    destruct (Hall i) as (a' & b' & Ha' & Hb' & Hs).
    { apply lookup_lt_Some in Ha. lia. }
    congruence.
  - intros [_ Hall] i Hi.
    destruct (lookup_lt_is_Some_2 (inputs_ e) i ltac:(lia)) as [a Ha].
    destruct (lookup_lt_is_Some_2 (inputs_ e2) i ltac:(lia)) as [b Hb].
    exists a, b. eauto.
Qed.

(** After the three guards the answer is the answer of the loop. *)
Lemma Expr_sameAs_exprs_true (h : gmap N Object) (e e2 : Expr) :
  Expr_sameAs_exprs h e e2 = Ok true ↔
  type_ e = type_ e2
  ∧ length (inputs_ e) = length (inputs_ e2)
  ∧ length (outputs_ e) = length (outputs_ e2)
  ∧ Forall2 (λ a b, Val_sameAs h a b = Ok true) (inputs_ e) (inputs_ e2).
Proof.
  unfold Expr_sameAs_exprs.
  destruct (decide (type_ e = type_ e2)) as [Ht|Ht].
  2:{ rewrite (bool_decide_eq_false_2 _ Ht). simpl.
      split; [done | intros (? & ? & ? & ?); done]. }
  rewrite (bool_decide_eq_true_2 _ Ht). simpl.
  destruct (decide (length (inputs_ e) = length (inputs_ e2))) as [Hi|Hi].
  2:{ rewrite (bool_decide_eq_false_2 _ Hi). simpl.
      split; [done | intros (? & ? & ? & ?); done]. }
  rewrite (bool_decide_eq_true_2 _ Hi). simpl.
  destruct (decide (length (outputs_ e) = length (outputs_ e2))) as [Ho|Ho].
  2:{ rewrite (bool_decide_eq_false_2 _ Ho). simpl.
      split; [done | intros (? & ? & ? & ?); done]. }
  rewrite (bool_decide_eq_true_2 _ Ho). simpl.
  rewrite (sameAs_loop_Forall2 h e e2 Hi). tauto.
Qed.

End SameAs.

Lemma sameAs_loop_set_outputs `{ValSameAs}
    (h : gmap N Object) (e e2 : Expr) (outs outs' : list N) (range : list nat) :
  sameAs_loop h (set_outputs outs e) (set_outputs outs' e2) range
  = sameAs_loop h e e2 range.
Proof.
  induction range as [|i range IH]; simpl; [done|].
  unfold input at 1 2 3 4. simpl.
  destruct (inputs_ e !! i) as [a|]; simpl; [|done].
  destruct (inputs_ e2 !! i) as [b|]; simpl; [|done].
  destruct (Val_sameAs h a b) as [[]| |]; simpl; try done.
Qed.

(** C6: [e.sameAs(e)] is true for every Expr.  Against a statement at
    another address, [sameAs] is true exactly when that statement is an
    Expr of the same operation kind, with as many inputs and as many
    outputs, whose inputs are pairwise the same by the rule of the Val; it
    is false when the other statement is a Val, and false when the two
    Exprs differ in the number of inputs, whether or not their kinds agree.
    The contents of the two output lists are not read: lists of the same
    lengths in their place give the same answer. *)
Theorem C6_Expr_sameAs_reflexive_and_structural `{ValSameAs}
    (h : gmap N Object) (this other : N) (e : Expr) :
  h !! this = Some (OExpr e) →
  Expr_sameAs h this this = Ok true
  ∧ (this ≠ other →
       (Expr_sameAs h this other = Ok true ↔
          ∃ e2, h !! other = Some (OExpr e2)
                ∧ type_ e = type_ e2
                ∧ length (inputs_ e) = length (inputs_ e2)
                ∧ length (outputs_ e) = length (outputs_ e2)
                ∧ Forall2 (λ a b, Val_sameAs h a b = Ok true)
                    (inputs_ e) (inputs_ e2))
       ∧ (∀ n, h !! other = Some (OVal n) →
            Expr_sameAs h this other = Ok false)
       ∧ (∀ e2, h !! other = Some (OExpr e2) →
            length (inputs_ e) ≠ length (inputs_ e2) →
            Expr_sameAs h this other = Ok false))
  ∧ (∀ e2 outs outs',
       length outs = length (outputs_ e) →
       length outs' = length (outputs_ e2) →
       Expr_sameAs_exprs h (set_outputs outs e) (set_outputs outs' e2)
       = Expr_sameAs_exprs h e e2).
Proof.
  intros He. split; [|split].
  - unfold Expr_sameAs. by rewrite bool_decide_eq_true_2.
  - intros Hne. unfold Expr_sameAs.
    rewrite (bool_decide_eq_false_2 _ Hne). unfold load.
    split; [|split].
    + destruct (h !! other) as [[n|e2]|] eqn:Ho; simpl.
      * split; [done|]. by intros (e2 & [=] & _).
      * rewrite (load_Expr_lookup _ _ _ He). simpl.
        rewrite Expr_sameAs_exprs_true. split.
        -- intros Hall. by exists e2.
        -- by intros (? & [= <-] & Hall).
      * split; [done|]. by intros (e2 & [=] & _).
    + by intros n ->.
    + intros e2 -> Hlen. simpl. rewrite (load_Expr_lookup _ _ _ He). simpl.
      unfold Expr_sameAs_exprs.
      rewrite (bool_decide_eq_false_2 _ Hlen). simpl.
      by destruct (negb (bool_decide (type_ e = type_ e2))).
  - intros e2 outs outs' Ho Ho'. unfold Expr_sameAs_exprs. simpl.
    rewrite Ho, Ho'. by rewrite sameAs_loop_set_outputs.
Qed.

Lemma C6_witness :
  @Expr_sameAs Example.pointer_sameAs Example.graph Example.add Example.add
    = Ok true
  ∧ @Expr_sameAs Example.pointer_sameAs Example.graph Example.add Example.add2
    = Ok true
  ∧ @Expr_sameAs Example.pointer_sameAs Example.graph Example.add Example.neg
    = Ok false
  ∧ @Expr_sameAs Example.pointer_sameAs Example.graph Example.add Example.a
    = Ok false.
Proof.
  split; [|split; [|split]].
  - refine (proj1 (C6_Expr_sameAs_reflexive_and_structural
      (H := Example.pointer_sameAs)
Example.graph Example.add Example.add _ _)); by vm_compute.
  - refine (proj2 (proj1 (proj1 (proj2
      (C6_Expr_sameAs_reflexive_and_structural (H := Example.pointer_sameAs)
Example.graph Example.add Example.add2 _ _)) _)) _);
      [by vm_compute|done|].
    eexists. split; [by vm_compute|]. repeat split.
    repeat constructor.
  - refine (proj2 (proj2 (proj1 (proj2
      (C6_Expr_sameAs_reflexive_and_structural (H := Example.pointer_sameAs)
Example.graph Example.add Example.neg _ _)) _)) _ _ _);
      [by vm_compute|done|by vm_compute|].
    simpl. lia.
  - refine (proj1 (proj2 (proj1 (proj2
      (C6_Expr_sameAs_reflexive_and_structural (H := Example.pointer_sameAs)
Example.graph Example.add Example.a _ _)) _)) _ _);
      [by vm_compute|done|by vm_compute].
Defined.

(** ** ConstCheck *)

Section ConstCheckFacts.
Context `{ValHeader}.

(** A visit started from [s] ends in [s && r], for [r] the end of the same
    visit started from [true]: every handler only ever conjoins. *)
Lemma handle_inputs_and (f : N → bool → res bool) (l : list N) :
  (∀ p s, f p s = andb s <$> f p true) →
  ∀ s, ConstCheck.handle_inputs f l s
       = andb s <$> ConstCheck.handle_inputs f l true.
Proof.
  intros Hf. induction l as [|p l IH]; intros s; simpl.
  - by rewrite andb_true_r.
  - rewrite (Hf p s). destruct (f p true) as [b| |]; simpl; [|done..].
    rewrite (IH (s && b)), (IH b).
    destruct (ConstCheck.handle_inputs f l true) as [r| |]; simpl; [|done..].
    by rewrite andb_assoc.
Qed.

Lemma dispatch_and (n : ValNode) (s : bool) :
  ConstCheck.OptOutConstDispatch_handle n s
  = s && ConstCheck.OptOutConstDispatch_handle n true.
Proof.
  destruct n; simpl;
    unfold ConstCheck.handle_Bool, ConstCheck.handle_Double,
      ConstCheck.handle_Int, ConstCheck.handle_NamedScalar;
    simpl; try done.
  by rewrite andb_true_r.
Qed.

Lemma handle_Val_and (fuel : nat) (h : gmap N Object) :
  ∀ p s, ConstCheck.handle_Val fuel h p s
         = andb s <$> ConstCheck.handle_Val fuel h p true.
Proof.
  induction fuel as [|fuel IH]; intros p s; simpl; [done|].
  destruct (load_Val h p) as [n| |]; simpl; [|done..].
  destruct (definition (val_of n)) as [d|].
  - unfold ConstCheck.handle_Expr.
    destruct (load_Expr h d) as [e| |]; simpl; [|done..].
    by apply handle_inputs_and.
  - simpl. by rewrite dispatch_and.
Qed.

(** The visit of a list of inputs is the conjunction of the visits of its
    elements. *)
Lemma handle_inputs_conj (f : N → bool → res bool) (l : list N) (bs : list bool) :
  (∀ p s, f p s = andb s <$> f p true) →
  Forall2 (λ inp b, f inp true = Ok b) l bs →
  ∀ s, ConstCheck.handle_inputs f l s = Ok (s && forallb id bs).
Proof.
  intros Hf Hall. induction Hall as [|p b l bs Hp _ IH]; intros s; simpl.
  - by rewrite andb_true_r.
  - rewrite (Hf p s), Hp. simpl. rewrite IH. unfold id at 1.
    by rewrite andb_assoc.
Qed.

(** More fuel does not change an answer. *)
Lemma handle_inputs_mono (f g : N → bool → res bool) (l : list N) :
  (∀ p s r, f p s = Ok r → g p s = Ok r) →
  ∀ s r, ConstCheck.handle_inputs f l s = Ok r →
         ConstCheck.handle_inputs g l s = Ok r.
Proof.
  intros Hfg. induction l as [|p l IH]; intros s r; simpl; [done|].
  destruct (f p s) as [b| |] eqn:Hp; simpl; [|done..].
  rewrite (Hfg _ _ _ Hp). simpl. apply IH.
Qed.

Lemma handle_Val_fuel_mono (h : gmap N Object) (fuel fuel' : nat) :
  fuel ≤ fuel' →
  ∀ p s r, ConstCheck.handle_Val fuel h p s = Ok r →
           ConstCheck.handle_Val fuel' h p s = Ok r.
Proof.
  revert fuel'. induction fuel as [|fuel IH]; intros fuel' Hle p s r;
    simpl; [done|].
  destruct fuel' as [|fuel']; [lia|]. simpl.
  destruct (load_Val h p) as [n| |]; simpl; [|done..].
  destruct (definition (val_of n)) as [d|]; [|done].
  unfold ConstCheck.handle_Expr.
  destruct (load_Expr h d) as [e| |]; simpl; [|done..].
  apply handle_inputs_mono. apply IH. lia.
Qed.

(** A leaf is answered by the handler of its own class. *)
Lemma handle_Val_leaf (fuel : nat) (h : gmap N Object) (p : N) (n : ValNode) (s : bool) :
  h !! p = Some (OVal n) →
  definition (val_of n) = None →
  ConstCheck.handle_Val (S fuel) h p s
  = Ok (ConstCheck.OptOutConstDispatch_handle n s).
Proof.
  intros Hp Hd. simpl. rewrite (load_Val_lookup _ _ _ Hp). simpl.
  by rewrite Hd.
Qed.

(** A Val with a producer is answered by the visit of the producer. *)
Lemma handle_Val_defined (fuel : nat) (h : gmap N Object) (p d : N) (n : ValNode) (s : bool) :
  h !! p = Some (OVal n) →
  definition (val_of n) = Some d →
  ConstCheck.handle_Val (S fuel) h p s
  = ConstCheck.handle_Expr (ConstCheck.handle_Val fuel h) h d s.
Proof.
  intros Hp Hd. simpl. rewrite (load_Val_lookup _ _ _ Hp). simpl.
  by rewrite Hd.
Qed.

Lemma handle_Expr_conj (fuel : nat) (h : gmap N Object) (expr : N) (e : Expr)
    (bs : list bool) (s : bool) :
  h !! expr = Some (OExpr e) →
  Forall2 (λ inp b, ConstCheck.handle_Val fuel h inp true = Ok b)
    (inputs_ e) bs →
  ConstCheck.handle_Expr (ConstCheck.handle_Val fuel h) h expr s
  = Ok (s && forallb id bs).
Proof.
  intros He Hall. unfold ConstCheck.handle_Expr.
  rewrite (load_Expr_lookup _ _ _ He). simpl.
  apply handle_inputs_conj; [apply handle_Val_and|done].
Qed.

(** A visit of a list of inputs that returns has visited every input:
    each input has an answer of its own, and the result is the conjunction
    of the running value with all of them. *)
Lemma handle_inputs_conj_inv (f : N → bool → res bool) (l : list N) :
  (∀ p s, f p s = andb s <$> f p true) →
  ∀ s r, ConstCheck.handle_inputs f l s = Ok r →
    ∃ bs, Forall2 (λ inp b, f inp true = Ok b) l bs ∧ r = s && forallb id bs.
Proof.
  intros Hf. induction l as [|p l IH]; intros s r; simpl.
  - intros [= <-]. exists []. split; [constructor|]. by rewrite andb_true_r.
  - rewrite (Hf p s). destruct (f p true) as [b| |] eqn:Hp; simpl; [|done..].
    intros Hrest. destruct (IH _ _ Hrest) as (bs & Hall & ->).
    exists (b :: bs). split; [by constructor|]. simpl. unfold id at 2.
    by rewrite andb_assoc.
Qed.

End ConstCheckFacts.

(** C3: ConstCheck walks the chain of producers.  The visit of a Val that
    has a producer is the visit of that producer; the visit of an operation
    visits each of its inputs, none left out, and its result is the
    conjunction of the running value with the results of the inputs; the
    visit of a Val with no producer is the handler of its own class, which
    conjoins the marked-constant flag of a literal and false for a named
    scalar.  So the answer on a Val [c] with a producer is the conjunction of
    the answers on the inputs, and [c.isConstScalar()] is that conjunction
    for a scalar [c] and false for any other kind.  For [c] produced by an
    Expr whose inputs are two integer literals without producers the answer
    is the conjunction of the two marked-constant flags, with any fuel of two
    or more: true when both literals are constant and [c] is a scalar. *)
Theorem C3_ConstCheck_walks_producer_chain `{ValHeader} (h : gmap N Object) :
  (∀ fuel val n d s,
     h !! val = Some (OVal n) →
     definition (val_of n) = Some d →
     ConstCheck.handle_Val (S fuel) h val s
     = ConstCheck.handle_Expr (ConstCheck.handle_Val fuel h) h d s)
  ∧ (∀ fuel expr e bs s,
       h !! expr = Some (OExpr e) →
       Forall2 (λ inp b, ConstCheck.handle_Val fuel h inp true = Ok b)
         (inputs_ e) bs →
       ConstCheck.handle_Expr (ConstCheck.handle_Val fuel h) h expr s
       = Ok (s && forallb id bs))
  ∧ (∀ fuel expr e s r,
       h !! expr = Some (OExpr e) →
       ConstCheck.handle_Expr (ConstCheck.handle_Val fuel h) h expr s = Ok r →
       ∃ bs,
         Forall2 (λ inp b, ConstCheck.handle_Val fuel h inp true = Ok b)
           (inputs_ e) bs
         ∧ r = s && forallb id bs)
  ∧ (∀ fuel p n s,
       h !! p = Some (OVal n) →
       definition (val_of n) = None →
       ConstCheck.handle_Val (S fuel) h p s
       = Ok (s && match n with
                  | Bool_ _ lit => isConst lit
                  | Double_ _ lit => isConst lit
                  | Int_ _ lit => isConst lit
                  | NamedScalar_ _ _ => false
                  | OtherVal _ => true
                  end))
  ∧ (∀ fuel c nc d e bs,
       h !! c = Some (OVal nc) →
       definition (val_of nc) = Some d →
       h !! d = Some (OExpr e) →
       Forall2 (λ inp b, ConstCheck.isConst fuel h inp = Ok b) (inputs_ e) bs →
       ConstCheck.isConst (S fuel) h c = Ok (forallb id bs)
       ∧ Val_isConstScalar (S fuel) h c
         = Ok (isScalar (val_of nc) && forallb id bs))
  ∧ (∀ c nc expr e a b va vb la lb,
       h !! c = Some (OVal nc) →
       definition (val_of nc) = Some expr →
       h !! expr = Some (OExpr e) →
       inputs_ e = [a; b] →
       h !! a = Some (OVal (Int_ va la)) →
       h !! b = Some (OVal (Int_ vb lb)) →
       definition va = None →
       definition vb = None →
       ∀ fuel, 2 ≤ fuel →
         ConstCheck.isConst fuel h c = Ok (isConst la && isConst lb)
         ∧ Val_isConstScalar fuel h c
           = Ok (isScalar (val_of nc) && (isConst la && isConst lb))
         ∧ (isConst la = true → isConst lb = true →
            ConstCheck.isConst fuel h c = Ok true
            ∧ (isScalar (val_of nc) = true →
               Val_isConstScalar fuel h c = Ok true))).
Proof.
  assert (∀ fuel c nc d e bs,
            h !! c = Some (OVal nc) →
            definition (val_of nc) = Some d →
            h !! d = Some (OExpr e) →
            Forall2 (λ inp b, ConstCheck.isConst fuel h inp = Ok b)
              (inputs_ e) bs →
            ConstCheck.isConst (S fuel) h c = Ok (forallb id bs)
            ∧ Val_isConstScalar (S fuel) h c
              = Ok (isScalar (val_of nc) && forallb id bs)) as Hstep.
  { intros fuel c nc d e bs Hc Hd He Hall.
    assert (ConstCheck.isConst (S fuel) h c = Ok (forallb id bs)) as Hwalk.
    { unfold ConstCheck.isConst.
      rewrite (handle_Val_defined fuel h c d nc true Hc Hd).
      by rewrite (handle_Expr_conj fuel h d e bs true He Hall). }
    split; [done|]. unfold Val_isConstScalar.
    rewrite (load_Val_lookup _ _ _ Hc). simpl.
    by destruct (isScalar (val_of nc)). }
  assert (∀ fuel p n s,
            h !! p = Some (OVal n) →
            definition (val_of n) = None →
            ConstCheck.handle_Val (S fuel) h p s = Ok (s && leaf_answer n))
    as Hleaf.
  { intros fuel p n s Hp Hd. rewrite (handle_Val_leaf fuel h p n s Hp Hd).
    rewrite dispatch_and. by destruct n. }
  split; [|split; [|split; [|split; [|split]]]].
  - intros fuel val n d s. apply handle_Val_defined.
  - intros fuel expr e bs s. apply handle_Expr_conj.
  - intros fuel expr e s r He. unfold ConstCheck.handle_Expr.
    rewrite (load_Expr_lookup _ _ _ He). simpl.
    apply handle_inputs_conj_inv, handle_Val_and.
  - exact Hleaf.
  - exact Hstep.
  - intros c nc expr e a b va vb la lb Hc Hd He Hin Ha Hb Hda Hdb fuel Hfuel.
    destruct fuel as [|[|fuel]]; [lia..|].
    destruct (Hstep (S fuel) c nc expr e [isConst la; isConst lb] Hc Hd He)
      as [Hwalk Hscalar].
    { rewrite Hin. unfold ConstCheck.isConst. repeat constructor.
      - by rewrite (Hleaf fuel a (Int_ va la) true Ha Hda).
      - by rewrite (Hleaf fuel b (Int_ vb lb) true Hb Hdb). }
    simpl in Hwalk, Hscalar. unfold id in Hwalk, Hscalar.
    rewrite andb_true_r in Hwalk, Hscalar.
    split; [done|]. split; [done|].
    intros Hla Hlb. rewrite Hwalk, Hscalar, Hla, Hlb.
    split; [done|]. by intros ->.
Qed.

Lemma C3_witness :
  @ConstCheck.isConst Example.header 2 Example.graph Example.c = Ok true
  ∧ @Val_isConstScalar Example.header 2 Example.graph Example.c = Ok true
  ∧ @Val_isConstScalar Example.header 2 Symbolic.graph Symbolic.m = Ok false.
Proof.
  pose proof (proj2 (proj2 (proj2 (proj2 (proj2
    (C3_ConstCheck_walks_producer_chain (H := Example.header)
       Example.graph)))))
    Example.c _ Example.add _ Example.a Example.b _ _ _ _
    ltac:(by vm_compute) ltac:(by vm_compute) ltac:(by vm_compute)
    ltac:(by vm_compute) ltac:(by vm_compute) ltac:(by vm_compute)
    ltac:(by vm_compute) ltac:(by vm_compute) 2 ltac:(lia))
    as (_ & _ & Hboth).
  destruct (Hboth eq_refl eq_refl) as [Hconst Hscalar].
  split; [exact Hconst|]. split; [apply Hscalar; by vm_compute|].
  exact (proj2 (proj1 (proj2 (proj2 (proj2 (proj2
    (C3_ConstCheck_walks_producer_chain (H := Example.header)
       Symbolic.graph)))))
    1 Symbolic.m _ Symbolic.mul _ [false; true]
    ltac:(by vm_compute) ltac:(by vm_compute) ltac:(by vm_compute)
    ltac:(repeat constructor; by vm_compute))).
Defined.

(** C7: a Val of the named-symbolic class that has no producer is not a
    constant scalar, whatever its tags, flags and consumers: with any fuel
    of one or more [isConstScalar()] returns false. *)
Theorem C7_named_scalar_leaf_is_not_const `{ValHeader}
    (h : gmap N Object) (p : N) (v : Val) (name : string) :
  h !! p = Some (OVal (NamedScalar_ v name)) →
  definition v = None →
  ∀ fuel, 1 ≤ fuel → Val_isConstScalar fuel h p = Ok false.
Proof.
  intros Hp Hd fuel Hfuel. unfold Val_isConstScalar.
  rewrite (load_Val_lookup _ _ _ Hp). simpl.
  destruct (isScalar v); simpl; [|done].
  destruct fuel as [|fuel]; [lia|]. unfold ConstCheck.isConst.
  by rewrite (handle_Val_leaf fuel h p (NamedScalar_ v name) true Hp Hd).
Qed.

Lemma C7_witness :
  @Val_isConstScalar Example.header 1 Example.graph Example.n = Ok false.
Proof.
  apply (C7_named_scalar_leaf_is_not_const (H := Example.header)
Example.graph Example.n _ _
           ltac:(by vm_compute) ltac:(by vm_compute) 1).
  lia.
Defined.

(** ** getInt, isZeroInt, isOneInt *)

(** C9: [getInt()] returns an integer only for an object of the integer
    literal class, of kind Scalar and of integer type, on which
    [isConstScalar()] is true, and the integer is the value of that literal;
    whenever [isConstScalar()] returns and one of these conditions fails,
    [getInt()] returns the absent value and raises nothing.  [isZeroInt()]
    is true exactly when [getInt()] returns 0, and [isOneInt()] exactly when
    it returns 1; both return whenever [getInt()] does. *)
Theorem C9_getInt_only_for_constant_integer_literals `{ValHeader}
    (fuel : nat) (h : gmap N Object) (this : N) (n : ValNode) :
  h !! this = Some (OVal n) →
  (∀ x, Val_getInt fuel h this = Ok (Some x) →
        Val_isConstScalar fuel h this = Ok true
        ∧ isAnInt (val_of n) = true
        ∧ vtype_ (val_of n) = ValType.Scalar
        ∧ ∃ v lit, n = Int_ v lit ∧ value lit = Some x)
  ∧ (∀ c, Val_isConstScalar fuel h this = Ok c →
          c && isAnInt (val_of n)
            && bool_decide (vtype_ (val_of n) = ValType.Scalar) = false →
          Val_getInt fuel h this = Ok None)
  ∧ (∀ v lit, n = Int_ v lit →
          Val_isConstScalar fuel h this = Ok true →
          isAnInt v = true →
          vtype_ v = ValType.Scalar →
          Val_getInt fuel h this = Ok (value lit))
  ∧ (Val_isZeroInt fuel h this = Ok true ↔
       Val_getInt fuel h this = Ok (Some 0%Z))
  ∧ (Val_isOneInt fuel h this = Ok true ↔
       Val_getInt fuel h this = Ok (Some 1%Z))
  ∧ (∀ o, Val_getInt fuel h this = Ok o →
          Val_isZeroInt fuel h this = Ok (bool_decide (o = Some 0%Z))
          ∧ Val_isOneInt fuel h this = Ok (bool_decide (o = Some 1%Z))).
Proof.
  intros Hn.
  assert (∀ (k : Z) (o : option Z),
            has_value_and o (λ x, Z.eqb x k) = bool_decide (o = Some k))
    as Hhas.
  { intros k [x|]; unfold has_value_and.
    - destruct (Z.eqb_spec x k) as [->|Hne].
      + by rewrite bool_decide_eq_true_2.
      + rewrite bool_decide_eq_false_2; [done|congruence].
    - by rewrite bool_decide_eq_false_2. }
  assert (Val_getInt fuel h this =
            (c ← Val_isConstScalar fuel h this;
             if c && isAnInt (val_of n) then
               if bool_decide (vtype_ (val_of n) = ValType.Scalar) then
                 i ← as_Int n; Ok (value i)
               else Ok None
             else Ok None)) as Hget.
  { unfold Val_getInt. by rewrite (load_Val_lookup _ _ _ Hn). }
  split; [|split; [|split; [|split; [|split]]]].
  - intros x. rewrite Hget.
    destruct (Val_isConstScalar fuel h this) as [[]| |]; simpl; try done.
    destruct (isAnInt (val_of n)); simpl; try done.
    destruct (decide (vtype_ (val_of n) = ValType.Scalar)) as [Hvt|Hvt].
    2:{ by rewrite (bool_decide_eq_false_2 _ Hvt). }
    rewrite (bool_decide_eq_true_2 _ Hvt).
    destruct n as [| |v lit| |]; simpl; try done.
    intros [= Hx]. repeat split; try done. eauto.
  - intros c Hc Hcond. rewrite Hget, Hc. simpl.
    destruct (c && isAnInt (val_of n)); simpl in *; [|done].
    by rewrite Hcond.
  - intros v lit -> Hc Hint Hvt. rewrite Hget, Hc. simpl.
    rewrite Hint. simpl. by rewrite (bool_decide_eq_true_2 _ Hvt).
  - unfold Val_isZeroInt.
    destruct (Val_getInt fuel h this) as [o| |]; simpl; [|done..].
    rewrite Hhas. split.
    + intros [= Ho]. by apply bool_decide_eq_true_1 in Ho as ->.
    + by intros [= ->].
  - unfold Val_isOneInt.
    destruct (Val_getInt fuel h this) as [o| |]; simpl; [|done..].
    rewrite Hhas. split.
    + intros [= Ho]. by apply bool_decide_eq_true_1 in Ho as ->.
    + by intros [= ->].
  - intros o Ho. unfold Val_isZeroInt, Val_isOneInt. rewrite Ho. simpl.
    by rewrite !Hhas.
Qed.

Lemma C9_witness :
  @Val_getInt Example.header 1 Example.graph Example.zero = Ok (Some 0%Z)
  ∧ @Val_isZeroInt Example.header 1 Example.graph Example.zero = Ok true
  ∧ @Val_getInt Example.header 2 Example.graph Example.n = Ok None.
Proof.
  pose proof (C9_getInt_only_for_constant_integer_literals
                (H := Example.header) 1 Example.graph Example.zero _
                ltac:(by vm_compute))
    as (_ & _ & Hlit & Hzero & _ & _).
  assert (@Val_getInt Example.header 1 Example.graph Example.zero
          = Ok (Some 0%Z)) as Hget.
  { apply (Hlit _ _ eq_refl); by vm_compute. }
  split; [exact Hget|]. split; [exact (proj2 Hzero Hget)|].
  refine (proj1 (proj2
    (C9_getInt_only_for_constant_integer_literals
       (H := Example.header) 2 Example.graph Example.n _ _)) false _ _);
    by vm_compute.
Defined.

(** * Further properties of the file *)

(** ** Casts and the data type *)

(** X1: on a live statement exactly one of [asVal()] and [asExpr()]
    succeeds, the one of the variant of the object, and it returns the
    pointer it was called on; the other fails its internal assertion. *)
Theorem X1_asVal_asExpr_exclusive
    (h : gmap N Object) (this : N) (o : Object) :
  h !! this = Some o →
  (Statement_asVal h this = Ok this
   ∧ Statement_asExpr h this
     = Raise (InternalAssert "Cannot cast to Expr as this is not a Expr.")
   ∧ ∃ n, o = OVal n)
  ∨ (Statement_asExpr h this = Ok this
     ∧ Statement_asVal h this
       = Raise (InternalAssert "Cannot cast to Val as this is not a Val.")
     ∧ ∃ e, o = OExpr e).
Proof.
  intros Ho. unfold Statement_asVal, Statement_asExpr, load. rewrite Ho.
  destruct o as [n|e]; simpl; [left|right]; eauto.
Qed.

Lemma X1_witness :
  Statement_asVal Example.graph Example.a = Ok Example.a
  ∧ Statement_asExpr Example.graph Example.add = Ok Example.add.
Proof.
  split.
  - destruct (X1_asVal_asExpr_exclusive Example.graph Example.a _
                ltac:(by vm_compute)) as [(Hv & _)|(_ & _ & e & He)];
      [exact Hv|discriminate He].
  - destruct (X1_asVal_asExpr_exclusive Example.graph Example.add _
                ltac:(by vm_compute)) as [(_ & _ & n & Hn)|(He & _)];
      [discriminate Hn|exact He].
Defined.

(** X2: [getDataType()] fails its internal assertion exactly on a Val whose
    data type is Null; on every other Val it returns the stored data type,
    so a returned data type is never absent and never Null. *)
Theorem X2_getDataType_never_null
    (h : gmap N Object) (this : N) (n : ValNode) :
  h !! this = Some (OVal n) →
  (dtype_ (val_of n) = DataType.Null ↔
     Val_getDataType h this
     = Raise (InternalAssert "Value does not have a data type."))
  ∧ (∀ o, Val_getDataType h this = Ok o →
          o = Some (dtype_ (val_of n)) ∧ o ≠ Some DataType.Null)
  ∧ (dtype_ (val_of n) ≠ DataType.Null →
     Val_getDataType h this = Ok (Some (dtype_ (val_of n)))).
Proof.
  intros Hn. unfold Val_getDataType. rewrite (load_Val_lookup _ _ _ Hn).
  simpl.
  destruct (decide (dtype_ (val_of n) = DataType.Null)) as [Hd|Hd].
  - rewrite bool_decide_eq_false_2 by (intros Hne; by apply Hne).
    split; [done|]. split; [done|]. by intros Hne.
  - rewrite (bool_decide_eq_true_2 _ Hd).
    split; [split; [done|discriminate]|].
    split; [|done]. intros o [= <-]. split; [done|]. by intros [= Heq].
Qed.

Lemma X2_witness :
  Val_getDataType Symbolic.graph Symbolic.untyped
    = Raise (InternalAssert "Value does not have a data type.")
  ∧ Val_getDataType Symbolic.graph Symbolic.k = Ok (Some DataType.Int).
Proof.
  split.
  - apply (proj1 (proj1 (X2_getDataType_never_null
             Symbolic.graph Symbolic.untyped _ ltac:(by vm_compute)))).
    by vm_compute.
  - pose proof (X2_getDataType_never_null Symbolic.graph Symbolic.k _
                  ltac:(by vm_compute)) as (_ & _ & Hget).
    apply Hget. by vm_compute.
Defined.

(** ** ConstCheck on whole graphs *)

Section ConstCheckGraphs.
Context `{ValHeader}.

Lemma handle_inputs_returns (g : N → bool → res bool) (l : list N) :
  Forall (λ i, ∀ s, ∃ r, g i s = Ok r) l →
  ∀ s, ∃ r, ConstCheck.handle_inputs g l s = Ok r.
Proof.
  induction 1 as [|i l Hi _ IH]; intros s; simpl; [by eexists|].
  destruct (Hi s) as [r ->]. simpl. apply IH.
Qed.

(** A visit started from false ends in false. *)
Lemma handle_Val_from_false (fuel : nat) (h : gmap N Object) (p : N) (r : bool) :
  ConstCheck.handle_Val fuel h p false = Ok r → r = false.
Proof.
  rewrite handle_Val_and.
  destruct (ConstCheck.handle_Val fuel h p true); simpl; [|done..].
  by intros [= <-].
Qed.

Lemma handle_inputs_from_false (g : N → bool → res bool) (l : list N) (r : bool) :
  (∀ p s, g p s = andb s <$> g p true) →
  ConstCheck.handle_inputs g l false = Ok r → r = false.
Proof.
  intros Hg. rewrite (handle_inputs_and g l Hg).
  destruct (ConstCheck.handle_inputs g l true); simpl; [|done..].
  by intros [= <-].
Qed.

Lemma handle_inputs_one_false (g : N → bool → res bool) (l : list N) (q : N) :
  (∀ p s, g p s = andb s <$> g p true) →
  q ∈ l →
  g q true = Ok false →
  ∀ s r, ConstCheck.handle_inputs g l s = Ok r → r = false.
Proof.
  intros Hg Hq Hfalse. induction Hq as [q l|q p l _ IH]; intros s r; simpl.
  - rewrite (Hg q s), Hfalse. simpl. rewrite andb_false_r.
    by apply handle_inputs_from_false.
  - destruct (g p s) as [b| |]; simpl; [|done..]. by apply IH.
Qed.

Lemma handle_inputs_Permutation (g : N → bool → res bool) (l l' : list N) :
  (∀ p s, g p s = andb s <$> g p true) →
  Permutation l l' →
  ∀ s r, ConstCheck.handle_inputs g l s = Ok r →
         ConstCheck.handle_inputs g l' s = Ok r.
Proof.
  intros Hg. induction 1 as [|x l l' _ IH|x y l|l l' l'' _ IH1 _ IH2];
    intros s r; simpl.
  - done.
  - destruct (g x s) as [b| |]; simpl; [|done..]. apply IH.
  - rewrite (Hg y s), (Hg x s).
    destruct (g y true) as [by'| |] eqn:Hy; simpl; [|done..].
    rewrite (Hg x (s && by')).
    destruct (g x true) as [bx| |] eqn:Hx; simpl; [|done..].
    rewrite (Hg y (s && bx)), Hy. simpl.
    replace (s && bx && by') with (s && by' && bx); [done|].
    by destruct s, bx, by'.
  - intros Hl. by apply IH2, IH1.
Qed.

End ConstCheckGraphs.

(** X3: on a graph whose chains of producers are finite ([ranked]: every
    producer and every input of a producer is in the graph, and each input
    has a smaller rank than the Val it helps to produce) the walk of
    ConstCheck returns: with fuel above the rank of the Val it neither runs
    out of fuel nor raises, and so does [isConstScalar()]. *)
Theorem X3_ConstCheck_returns_on_ranked_graph `{ValHeader}
    (h : gmap N Object) (rank : N → nat) :
  ranked h rank →
  ∀ fuel p n,
    h !! p = Some (OVal n) →
    rank p < fuel →
    (∀ s, ∃ r, ConstCheck.handle_Val fuel h p s = Ok r)
    ∧ ∃ r, Val_isConstScalar fuel h p = Ok r.
Proof.
  intros Hranked.
  assert (∀ fuel p n s, h !! p = Some (OVal n) → rank p < fuel →
            ∃ r, ConstCheck.handle_Val fuel h p s = Ok r) as Hwalk.
  { induction fuel as [|fuel IH]; intros p n s Hp Hlt; [lia|]. simpl.
    rewrite (load_Val_lookup _ _ _ Hp). simpl.
    pose proof (map_Forall_lookup_1 _ _ _ _ Hranked Hp) as Hbelow.
    simpl in Hbelow.
    destruct (definition (val_of n)) as [d|]; [|by eexists].
    destruct (h !! d) as [[?|e]|] eqn:Hd; try done.
    unfold ConstCheck.handle_Expr. rewrite (load_Expr_lookup _ _ _ Hd).
    simpl. apply handle_inputs_returns.
    apply Forall_forall. intros i Hi s'.
    rewrite forallb_forall in Hbelow.
    specialize (Hbelow i (proj1 (list_elem_of_In _ _) Hi)).
    unfold input_below in Hbelow.
    destruct (h !! i) as [[ni|?]|] eqn:Hi'; try done.
    apply bool_decide_eq_true_1 in Hbelow.
    apply (IH i ni s' Hi'). lia. }
  intros fuel p n Hp Hlt. split; [intros s; by eapply Hwalk|].
  unfold Val_isConstScalar. rewrite (load_Val_lookup _ _ _ Hp). simpl.
  destruct (isScalar (val_of n)); simpl; [|by eexists].
  by eapply Hwalk.
Qed.

Lemma X3_witness :
  ∃ r, @Val_isConstScalar Example.header 2 Symbolic.graph Symbolic.m = Ok r.
Proof.
  refine (proj2 (X3_ConstCheck_returns_on_ranked_graph (H := Example.header)
    Symbolic.graph Symbolic.rank _ 2 Symbolic.m _ _ _)).
  - unfold ranked. apply (bool_decide_unpack _). by vm_compute.
  - by vm_compute.
  - vm_compute. lia.
Defined.

(** X4: the running value of ConstCheck only ever goes down.  A visit that
    returns [r] from the running value [s] returns some [r'] from true, and
    [r = s && r']; so a visit started from false returns false, and a visit
    that returns true was started from true. *)
Theorem X4_ConstCheck_only_conjoins `{ValHeader}
    (fuel : nat) (h : gmap N Object) (p : N) (s r : bool) :
  ConstCheck.handle_Val fuel h p s = Ok r →
  (∃ r', ConstCheck.handle_Val fuel h p true = Ok r' ∧ r = s && r')
  ∧ (s = false → r = false)
  ∧ (r = true → s = true).
Proof.
  rewrite handle_Val_and.
  destruct (ConstCheck.handle_Val fuel h p true) as [r'| |]; simpl;
    [|done..].
  intros [= <-]. split; [by exists r'|]. split.
  - by intros ->.
  - by destruct s.
Qed.

Lemma X4_witness :
  ∃ r', @ConstCheck.handle_Val Example.header 2 Symbolic.graph Symbolic.k
          true = Ok r'
        ∧ false = false && r'.
Proof.
  apply (X4_ConstCheck_only_conjoins (H := Example.header)
           2 Symbolic.graph Symbolic.k false false).
  by vm_compute.
Defined.

(** X5: one input that is not constant makes the output not constant.  If
    the producer of [c] lists an input [q] on which ConstCheck answers
    false, then ConstCheck on [c], and [c.isConstScalar()], answer false
    whenever they return, whatever the other inputs are and wherever [q]
    stands among them. *)
Theorem X5_non_constant_input_makes_output_non_constant `{ValHeader}
    (fuel : nat) (h : gmap N Object) (c d q : N) (nc : ValNode) (e : Expr) :
  h !! c = Some (OVal nc) →
  definition (val_of nc) = Some d →
  h !! d = Some (OExpr e) →
  q ∈ inputs_ e →
  ConstCheck.isConst fuel h q = Ok false →
  (∀ r, ConstCheck.isConst (S fuel) h c = Ok r → r = false)
  ∧ (∀ r, Val_isConstScalar (S fuel) h c = Ok r → r = false).
Proof.
  intros Hc Hd He Hq Hfalse.
  assert (∀ r, ConstCheck.isConst (S fuel) h c = Ok r → r = false) as Hwalk.
  { intros r. unfold ConstCheck.isConst.
    rewrite (handle_Val_defined fuel h c d nc true Hc Hd).
    unfold ConstCheck.handle_Expr. rewrite (load_Expr_lookup _ _ _ He).
    simpl. apply (handle_inputs_one_false _ _ q); [|done..].
    apply handle_Val_and. }
  split; [done|]. intros r. unfold Val_isConstScalar.
  rewrite (load_Val_lookup _ _ _ Hc). simpl.
  destruct (isScalar (val_of nc)); simpl; [apply Hwalk|by intros [= <-]].
Qed.

Lemma X5_witness :
  @Val_isConstScalar Example.header 2 Symbolic.graph Symbolic.m = Ok false.
Proof.
  pose proof (proj2 (X5_non_constant_input_makes_output_non_constant
    (H := Example.header) 1 Symbolic.graph Symbolic.m Symbolic.mul Symbolic.s
    _ _ ltac:(by vm_compute) ltac:(by vm_compute) ltac:(by vm_compute)
    ltac:(apply list_elem_of_here) ltac:(by vm_compute))) as Hm.
  destruct (@Val_isConstScalar Example.header 2 Symbolic.graph Symbolic.m)
    as [r| |] eqn:Hrun; [|by vm_compute in Hrun..].
  by rewrite (Hm r eq_refl).
Defined.

(** X6: the order of the inputs of a producer does not matter to the answer.
    If the producers of [c] and [c'] list the same inputs in another order,
    an answer of ConstCheck on [c] is also its answer on [c']. *)
Theorem X6_ConstCheck_input_order_irrelevant `{ValHeader}
    (fuel : nat) (h : gmap N Object) (c c' d d' : N)
    (nc nc' : ValNode) (e e' : Expr) (r : bool) :
  h !! c = Some (OVal nc) →
  definition (val_of nc) = Some d →
  h !! d = Some (OExpr e) →
  h !! c' = Some (OVal nc') →
  definition (val_of nc') = Some d' →
  h !! d' = Some (OExpr e') →
  Permutation (inputs_ e) (inputs_ e') →
  ConstCheck.isConst (S fuel) h c = Ok r →
  ConstCheck.isConst (S fuel) h c' = Ok r.
Proof.
  intros Hc Hd He Hc' Hd' He' Hperm. unfold ConstCheck.isConst.
  rewrite (handle_Val_defined fuel h c d nc true Hc Hd).
  rewrite (handle_Val_defined fuel h c' d' nc' true Hc' Hd').
  unfold ConstCheck.handle_Expr.
  rewrite (load_Expr_lookup _ _ _ He), (load_Expr_lookup _ _ _ He'). simpl.
  apply handle_inputs_Permutation; [apply handle_Val_and|done].
Qed.

Lemma X6_witness :
  @ConstCheck.isConst Example.header 2 Symbolic.graph Symbolic.m2 = Ok false.
Proof.
  apply (X6_ConstCheck_input_order_irrelevant (H := Example.header)
           1 Symbolic.graph Symbolic.m Symbolic.m2 Symbolic.mul Symbolic.mul2
           _ _ _ _ false
           ltac:(by vm_compute) ltac:(by vm_compute) ltac:(by vm_compute)
           ltac:(by vm_compute) ltac:(by vm_compute) ltac:(by vm_compute)).
  - apply perm_swap.
  - by vm_compute.
Defined.

(** X7: on a scalar literal with no producer, [isConstScalar()] is the
    literal's own marked-constant flag, for each of the three literal
    classes, with any fuel of one or more. *)
Theorem X7_isConstScalar_of_literal_leaf `{ValHeader}
    (fuel : nat) (h : gmap N Object) (p : N) (n : ValNode) :
  h !! p = Some (OVal n) →
  definition (val_of n) = None →
  isScalar (val_of n) = true →
  1 ≤ fuel →
  (∀ v lit, n = Bool_ v lit → Val_isConstScalar fuel h p = Ok (isConst lit))
  ∧ (∀ v lit, n = Double_ v lit →
       Val_isConstScalar fuel h p = Ok (isConst lit))
  ∧ (∀ v lit, n = Int_ v lit → Val_isConstScalar fuel h p = Ok (isConst lit)).
Proof.
  intros Hp Hd Hs Hfuel.
  assert (Val_isConstScalar fuel h p
          = Ok (ConstCheck.OptOutConstDispatch_handle n true)) as Hrun.
  { unfold Val_isConstScalar. rewrite (load_Val_lookup _ _ _ Hp). simpl.
    rewrite Hs. simpl. destruct fuel as [|fuel]; [lia|].
    unfold ConstCheck.isConst. by apply handle_Val_leaf. }
  rewrite Hrun. repeat split; by intros v lit ->.
Qed.

Lemma X7_witness :
  @Val_isConstScalar Example.header 1 Symbolic.graph Symbolic.u = Ok false
  ∧ @Val_isConstScalar Example.header 1 Symbolic.graph Symbolic.t = Ok true.
Proof.
  split.
  - refine (proj2 (proj2 (X7_isConstScalar_of_literal_leaf
      (H := Example.header) 1 Symbolic.graph Symbolic.u _ _ _ _ _))
      _ (mkLiteral false None) _); by vm_compute.
  - refine (proj1 (X7_isConstScalar_of_literal_leaf
      (H := Example.header) 1 Symbolic.graph Symbolic.t _ _ _ _ _)
      _ (mkLiteral true (Some true)) _); by vm_compute.
Defined.

(** ** Expr::sameAs as a relation *)

Section SameAsRelation.
Context `{ValSameAs}.

Lemma load_Expr_Ok (h : gmap N Object) (p : N) (e : Expr) :
  load_Expr h p = Ok e → h !! p = Some (OExpr e).
Proof.
  unfold load_Expr, load. destruct (h !! p) as [[?|e']|]; simpl; try done.
  by intros [= ->].
Qed.

Lemma Expr_sameAs_true_inv (h : gmap N Object) (x y : N) :
  x ≠ y →
  Expr_sameAs h x y = Ok true →
  ∃ e e2, h !! x = Some (OExpr e) ∧ h !! y = Some (OExpr e2)
          ∧ Expr_sameAs_exprs h e e2 = Ok true.
Proof.
  intros Hne. unfold Expr_sameAs. rewrite (bool_decide_eq_false_2 _ Hne).
  unfold load. destruct (h !! y) as [[?|e2]|]; simpl; try done.
  destruct (load_Expr h x) as [e| |] eqn:Hx; simpl; try done.
  intros Hs. exists e, e2. by rewrite (load_Expr_Ok _ _ _ Hx).
Qed.

Lemma Expr_sameAs_true_intro (h : gmap N Object) (x y : N) (e e2 : Expr) :
  h !! x = Some (OExpr e) →
  h !! y = Some (OExpr e2) →
  Expr_sameAs_exprs h e e2 = Ok true →
  Expr_sameAs h x y = Ok true.
Proof.
  intros Hx Hy Hs. unfold Expr_sameAs.
  destruct (bool_decide (x = y)); [done|].
  unfold load. rewrite Hy. simpl. by rewrite (load_Expr_lookup _ _ _ Hx).
Qed.

Lemma sameAs_loop_set_expr_base
    (h : gmap N Object) (e e2 : Expr) (s s' : Statement) (range : list nat) :
  sameAs_loop h (set_expr_base s e) (set_expr_base s' e2) range
  = sameAs_loop h e e2 range.
Proof.
  induction range as [|i range IH]; simpl; [done|].
  unfold input at 1 2 3 4. simpl.
  destruct (inputs_ e !! i) as [a|]; simpl; [|done].
  destruct (inputs_ e2 !! i) as [b|]; simpl; [|done].
  destruct (Val_sameAs h a b) as [[]| |]; simpl; try done.
Qed.

(** The loop leaves with false at the first pair that differs, without
    reading the pairs after it. *)
Lemma sameAs_loop_first_difference
    (h : gmap N Object) (e e2 : Expr) (i : nat) (a b : N) (m k : nat) :
  k ≤ i < k + m →
  inputs_ e !! i = Some a →
  inputs_ e2 !! i = Some b →
  Val_sameAs h a b = Ok false →
  (∀ j a' b', k ≤ j < i →
     inputs_ e !! j = Some a' → inputs_ e2 !! j = Some b' →
     Val_sameAs h a' b' = Ok true) →
  length (inputs_ e) = length (inputs_ e2) →
  sameAs_loop h e e2 (seq k m) = Ok false.
Proof.
  intros Hi Ha Hb Hdiff Hbefore Hlen. revert k Hi Hbefore.
  induction m as [|m IH]; intros k Hi Hbefore; [lia|]. simpl.
  destruct (decide (k = i)) as [->|Hne].
  - unfold input. rewrite Ha, Hb. simpl. by rewrite Hdiff.
  - assert (k < length (inputs_ e)) as Hk.
    { apply lookup_lt_Some in Ha. lia. }
    destruct (lookup_lt_is_Some_2 (inputs_ e) k Hk) as [a' Ha'].
    destruct (lookup_lt_is_Some_2 (inputs_ e2) k ltac:(lia)) as [b' Hb'].
    unfold input. rewrite Ha', Hb'. simpl.
    rewrite (Hbefore k a' b' ltac:(lia) Ha' Hb'). simpl.
    apply IH; [lia|]. intros j a'' b'' Hj. apply Hbefore. lia.
Qed.

End SameAsRelation.

(** X8: [sameAs] on Exprs is symmetric as soon as the rule of the Vals is:
    if [x.sameAs(y)] is true then so is [y.sameAs(x)]. *)
Theorem X8_Expr_sameAs_symmetric `{ValSameAs}
    (h : gmap N Object) (x y : N) :
  (∀ a b, Val_sameAs h a b = Ok true → Val_sameAs h b a = Ok true) →
  Expr_sameAs h x y = Ok true →
  Expr_sameAs h y x = Ok true.
Proof.
  intros Hsym Hxy. destruct (decide (x = y)) as [->|Hne]; [done|].
  destruct (Expr_sameAs_true_inv h x y Hne Hxy) as (e & e2 & Hx & Hy & Hs).
  apply (Expr_sameAs_true_intro h y x e2 e Hy Hx).
  apply Expr_sameAs_exprs_true in Hs as (Ht & Hi & Ho & Hall).
  apply Expr_sameAs_exprs_true. repeat split; try done.
  apply Forall2_flip. eapply Forall2_impl; [exact Hall|].
  intros a b. apply Hsym.
Qed.

Lemma X8_witness :
  @Expr_sameAs Example.pointer_sameAs Example.graph Example.add2 Example.add
    = Ok true.
Proof.
  apply (X8_Expr_sameAs_symmetric (H := Example.pointer_sameAs)
           Example.graph Example.add Example.add2).
  - intros a b. simpl. intros [= Hab]. f_equal.
    apply bool_decide_eq_true_1 in Hab. by rewrite bool_decide_eq_true_2.
  - by vm_compute.
Defined.

(** X9: [sameAs] on Exprs is transitive as soon as the rule of the Vals is:
    if [x.sameAs(y)] and [y.sameAs(z)] are true then so is [x.sameAs(z)]. *)
Theorem X9_Expr_sameAs_transitive `{ValSameAs}
    (h : gmap N Object) (x y z : N) :
  (∀ a b c, Val_sameAs h a b = Ok true → Val_sameAs h b c = Ok true →
            Val_sameAs h a c = Ok true) →
  Expr_sameAs h x y = Ok true →
  Expr_sameAs h y z = Ok true →
  Expr_sameAs h x z = Ok true.
Proof.
  intros Htrans Hxy Hyz.
  destruct (decide (x = y)) as [->|Hxy_ne]; [done|].
  destruct (decide (y = z)) as [<-|Hyz_ne]; [done|].
  destruct (Expr_sameAs_true_inv h x y Hxy_ne Hxy)
    as (e1 & e2 & Hx & Hy & Hs12).
  destruct (Expr_sameAs_true_inv h y z Hyz_ne Hyz)
    as (e2' & e3 & Hy' & Hz & Hs23).
  assert (e2' = e2) as -> by congruence.
  apply (Expr_sameAs_true_intro h x z e1 e3 Hx Hz).
  apply Expr_sameAs_exprs_true in Hs12 as (Ht12 & Hi12 & Ho12 & Hall12).
  apply Expr_sameAs_exprs_true in Hs23 as (Ht23 & Hi23 & Ho23 & Hall23).
  apply Expr_sameAs_exprs_true.
  split; [congruence|]. split; [congruence|]. split; [congruence|].
  eapply Forall2_trans; [|exact Hall12|exact Hall23].
  intros a b c. apply Htrans.
Qed.

Lemma X9_witness :
  @Expr_sameAs Example.pointer_sameAs Example.graph Example.add Example.add
    = Ok true.
Proof.
  apply (X9_Expr_sameAs_transitive (H := Example.pointer_sameAs)
           Example.graph Example.add Example.add2 Example.add).
  - intros a b c. simpl. intros [= Hab] [= Hbc]. f_equal.
    apply bool_decide_eq_true_1 in Hab, Hbc.
    rewrite bool_decide_eq_true_2; congruence.
  - by vm_compute.
  - by vm_compute.
Defined.

(** X10: [sameAs] reads neither the names nor the owning Fusions of the two
    Exprs: with any other [Statement] base on either side the answer is the
    same, so it makes no cross-Fusion check of its own. *)
Theorem X10_Expr_sameAs_ignores_name_and_fusion `{ValSameAs}
    (h : gmap N Object) (e e2 : Expr) (s s' : Statement) :
  Expr_sameAs_exprs h (set_expr_base s e) (set_expr_base s' e2)
  = Expr_sameAs_exprs h e e2.
Proof.
  unfold Expr_sameAs_exprs. simpl. by rewrite sameAs_loop_set_expr_base.
Qed.

(** X11: [sameAs] answers false at the first pair of inputs that differs,
    whatever the comparisons of the later pairs would give: for two Exprs of
    one kind and the same sizes, if the pairs before index [i] are the same
    and the pair at [i] is not, the answer is false. *)
Theorem X11_Expr_sameAs_first_difference `{ValSameAs}
    (h : gmap N Object) (e e2 : Expr) (i : nat) (a b : N) :
  type_ e = type_ e2 →
  length (inputs_ e) = length (inputs_ e2) →
  length (outputs_ e) = length (outputs_ e2) →
  inputs_ e !! i = Some a →
  inputs_ e2 !! i = Some b →
  Val_sameAs h a b = Ok false →
  (∀ j a' b', j < i →
     inputs_ e !! j = Some a' → inputs_ e2 !! j = Some b' →
     Val_sameAs h a' b' = Ok true) →
  Expr_sameAs_exprs h e e2 = Ok false.
Proof.
  intros Ht Hi Ho Ha Hb Hdiff Hbefore. unfold Expr_sameAs_exprs.
  rewrite (bool_decide_eq_true_2 _ Ht), (bool_decide_eq_true_2 _ Hi),
    (bool_decide_eq_true_2 _ Ho). simpl.
  apply (sameAs_loop_first_difference h e e2 i a b); try done.
  - apply lookup_lt_Some in Ha. lia.
  - intros j a' b' [_ Hj]. by apply Hbefore.
Qed.

Lemma X11_witness :
  @Expr_sameAs_exprs Example.pointer_sameAs Example.graph
    (mkExpr (mkStatement 0 (Some 100%N)) 1
       [Example.a; Example.b; Example.c] [Example.d])
    (mkExpr (mkStatement 1 (Some 100%N)) 1
       [Example.a; Example.n; Example.c] [Example.d])
  = Ok false.
Proof.
  apply (X11_Expr_sameAs_first_difference (H := Example.pointer_sameAs)
           Example.graph _ _ 1 Example.b Example.n);
    try (by vm_compute).
  intros j a' b' Hj. destruct j as [|j]; [|lia]. simpl.
  intros [= <-] [= <-]. by vm_compute.
Defined.

(** ** getInt on literals *)

(** X12: on an integer literal with no producer (a scalar of kind Scalar and
    of integer type) [getInt()] is the value of the literal when the literal
    is marked constant, and absent when it is not; hence a constant literal 0
    is a zero and not a one, and a constant literal 1 is a one and not a
    zero. *)
Theorem X12_getInt_of_integer_literal `{ValHeader}
    (fuel : nat) (h : gmap N Object) (p : N) (v : Val) (lit : Literal Z) :
  h !! p = Some (OVal (Int_ v lit)) →
  definition v = None →
  isScalar v = true →
  isAnInt v = true →
  vtype_ v = ValType.Scalar →
  1 ≤ fuel →
  Val_getInt fuel h p = Ok (if isConst lit then value lit else None)
  ∧ (isConst lit = true → value lit = Some 0%Z →
       Val_isZeroInt fuel h p = Ok true ∧ Val_isOneInt fuel h p = Ok false)
  ∧ (isConst lit = true → value lit = Some 1%Z →
       Val_isZeroInt fuel h p = Ok false ∧ Val_isOneInt fuel h p = Ok true)
  ∧ (isConst lit = false →
       Val_isZeroInt fuel h p = Ok false ∧ Val_isOneInt fuel h p = Ok false).
Proof.
  intros Hp Hd Hs Hint Hvt Hfuel.
  assert (Val_isConstScalar fuel h p = Ok (isConst lit)) as Hconst.
  { unfold Val_isConstScalar. rewrite (load_Val_lookup _ _ _ Hp). simpl.
    rewrite Hs. simpl. destruct fuel as [|fuel]; [lia|].
    unfold ConstCheck.isConst.
    by rewrite (handle_Val_leaf fuel h p (Int_ v lit) true Hp Hd). }
  assert (Val_getInt fuel h p = Ok (if isConst lit then value lit else None))
    as Hget.
  { unfold Val_getInt. rewrite (load_Val_lookup _ _ _ Hp). simpl.
    rewrite Hconst. simpl. rewrite Hint, (bool_decide_eq_true_2 _ Hvt).
    by destruct (isConst lit). }
  split; [done|]. unfold Val_isZeroInt, Val_isOneInt. rewrite Hget.
  split; [|split].
  - by intros -> ->.
  - by intros -> ->.
  - by intros ->.
Qed.

Lemma X12_witness :
  @Val_isZeroInt Example.header 1 Example.graph Example.zero = Ok true
  ∧ @Val_isOneInt Example.header 1 Example.graph Example.zero = Ok false
  ∧ @Val_isZeroInt Example.header 1 Example.graph Example.one = Ok false
  ∧ @Val_isOneInt Example.header 1 Example.graph Example.one = Ok true.
Proof.
  pose proof (X12_getInt_of_integer_literal (H := Example.header)
    1 Example.graph Example.zero _ _
    ltac:(by vm_compute) ltac:(by vm_compute) ltac:(by vm_compute)
    ltac:(by vm_compute) ltac:(by vm_compute) ltac:(lia))
    as (_ & Hzero & _ & _).
  pose proof (X12_getInt_of_integer_literal (H := Example.header)
    1 Example.graph Example.one _ _
    ltac:(by vm_compute) ltac:(by vm_compute) ltac:(by vm_compute)
    ltac:(by vm_compute) ltac:(by vm_compute) ltac:(lia))
    as (_ & _ & Hone & _).
  destruct (Hzero eq_refl eq_refl) as [Hz0 Hz1].
  destruct (Hone eq_refl eq_refl) as [Ho0 Ho1].
  by repeat split.
Defined.

(** X13: no Val is both a zero and a one: whenever [isZeroInt()] is true
    [isOneInt()] is false, and whenever [isOneInt()] is true [isZeroInt()]
    is false, on any graph and with any fuel. *)
Theorem X13_isZeroInt_isOneInt_exclusive `{ValHeader}
    (fuel : nat) (h : gmap N Object) (p : N) :
  (Val_isZeroInt fuel h p = Ok true → Val_isOneInt fuel h p = Ok false)
  ∧ (Val_isOneInt fuel h p = Ok true → Val_isZeroInt fuel h p = Ok false).
Proof.
  unfold Val_isZeroInt, Val_isOneInt.
  destruct (Val_getInt fuel h p) as [[x|]| |]; simpl; try done.
  split; intros [= Hx]; f_equal.
  - apply Z.eqb_eq in Hx as ->. done.
  - apply Z.eqb_eq in Hx as ->. done.
Qed.

Lemma X13_witness :
  @Val_isOneInt Example.header 1 Example.graph Example.zero = Ok false.
Proof.
  apply (proj1 (X13_isZeroInt_isOneInt_exclusive (H := Example.header)
                  1 Example.graph Example.zero)).
  by vm_compute.
Defined.

(** ** Val::uses, twice *)

(** X14: two calls of [uses()] in a row on a tensor view whose cache is
    stale recompute once.  If the recomputation returns a state in which
    the Val is still a tensor view of the same Fusion and the cache of that
    Fusion is valid, the first call recomputes and returns the list stored
    after it; the second call asks only for the validity of the cache,
    returns the same list, and leaves the state as it is. *)
Theorem X14_uses_twice_recomputes_once `{FusionHeader}
    (w w1 : World) (this f : N) (n n1 : ValNode) (F F1 : Fusion) :
  heap w !! this = Some (OVal n) →
  vtype_ (val_of n) = ValType.TensorView →
  Val_fusion (val_of n) = Some f →
  fusions w !! f = Some F →
  isTVUseInfoValid F = false →
  isUpdatingTVUseInfo F = false →
  resetTvUses f w = Ok w1 →
  heap w1 !! this = Some (OVal n1) →
  vtype_ (val_of n1) = ValType.TensorView →
  Val_fusion (val_of n1) = Some f →
  fusions w1 !! f = Some F1 →
  isTVUseInfoValid F1 = true →
  Val_uses w this
    = ([Call_isTVUseInfoValid f; Call_isUpdatingTVUseInfo f;
        Call_resetTvUses f], Ok (uses_ (val_of n1), w1))
  ∧ Val_uses w1 this
    = ([Call_isTVUseInfoValid f], Ok (uses_ (val_of n1), w1))
  ∧ recomputations ((Val_uses w this).1 ++ (Val_uses w1 this).1) = 1.
Proof.
  intros Hn Hvt Hf HF Hvalid Hupd Hreset Hn1 Hvt1 Hf1 HF1 Hvalid1.
  assert (Val_uses w this
          = ([Call_isTVUseInfoValid f; Call_isUpdatingTVUseInfo f;
              Call_resetTvUses f], Ok (uses_ (val_of n1), w1))) as Hfirst.
  { unfold Val_uses. rewrite (load_Val_lookup _ _ _ Hn).
    rewrite (bool_decide_eq_true_2 _ Hvt). unfold load_Fusion.
    rewrite Hf, HF, Hvalid, Hupd. simpl. rewrite Hreset. simpl.
    by rewrite (load_Val_lookup _ _ _ Hn1). }
  assert (Val_uses w1 this
          = ([Call_isTVUseInfoValid f], Ok (uses_ (val_of n1), w1)))
    as Hsecond.
  { unfold Val_uses. rewrite (load_Val_lookup _ _ _ Hn1).
    rewrite (bool_decide_eq_true_2 _ Hvt1). unfold load_Fusion.
    by rewrite Hf1, HF1, Hvalid1. }
  split; [done|]. split; [done|]. by rewrite Hfirst, Hsecond.
Qed.

Lemma X14_witness :
  recomputations
    ((@Val_uses Example.fusion_header (Example.world false false None)
        Example.tv).1
     ++ (@Val_uses Example.fusion_header (Example.world true false None)
           Example.tv).1) = 1.
Proof.
  refine (proj2 (proj2 (X14_uses_twice_recomputes_once
    (H := Example.fusion_header)
    (Example.world false false None) (Example.world true false None)
    Example.tv 100%N _ _ _ _ _ _ _ _ _ _ _ _ _ _ _ _)));
    by vm_compute.
Defined.

(** ** Registration at construction *)

(** X15: a Val constructed with [register_val] false is not registered: the
    outcome does not depend on the Fusion's [registerVal] at all, the state
    is returned as it was, and the Val keeps the name of an unregistered
    statement, with the tags it was given and no producer or consumers. *)
Theorem X15_Val_ctor_without_registration
    (H1 H2 : FusionHeader) (w : World) (this : N)
    (vt : ValType.t) (dt : DataType.t) :
  @Val_ctor H1 w this vt dt false = @Val_ctor H2 w this vt dt false
  ∧ (∀ v w', @Val_ctor H1 w this vt dt false = Ok (v, w') →
       w' = w
       ∧ name_ (val_base v) = kInvalidStmName
       ∧ vtype_ v = vt ∧ dtype_ v = dt
       ∧ definition_ v = None ∧ uses_ v = []).
Proof.
  split; [done|]. intros v w'. unfold Val_ctor.
  destruct (getCurFusion w) as [f|]; [|done].
  by intros [= <- <-].
Qed.

Lemma X15_witness :
  ∃ v, @Val_ctor Symbolic.failing_fusion_header
         (Example.world true false (Some 100%N)) 50%N
         ValType.Scalar DataType.Int false
       = Ok (v, Example.world true false (Some 100%N))
     ∧ name_ (val_base v) = kInvalidStmName.
Proof.
  destruct (@Val_ctor Symbolic.failing_fusion_header
              (Example.world true false (Some 100%N)) 50%N
              ValType.Scalar DataType.Int false) as [[v w']| |] eqn:Hrun;
    [|by vm_compute in Hrun..].
  destruct (proj2 (X15_Val_ctor_without_registration
              Symbolic.failing_fusion_header Example.fusion_header
              (Example.world true false (Some 100%N)) 50%N
              ValType.Scalar DataType.Int) v w' Hrun) as (-> & Hname & _).
  by exists v.
Defined.

(** X16: a Val constructed with [register_val] true under an active Fusion
    is handed to [registerVal] of that Fusion with its owner and its tags
    already set; the Val gets the name that [registerVal] returns and the
    state that it leaves, and an error of [registerVal] is the error of the
    constructor. *)
Theorem X16_Val_ctor_with_registration `{FusionHeader}
    (w : World) (this f : N) (vt : ValType.t) (dt : DataType.t) :
  getCurFusion w = Some f →
  ∃ v0,
    Val_fusion v0 = Some f ∧ vtype_ v0 = vt ∧ dtype_ v0 = dt
    ∧ (∀ name w', registerVal f this v0 w = Ok (name, w') →
         ∃ v, Val_ctor w this vt dt true = Ok (v, w')
              ∧ name_ (val_base v) = name
              ∧ Val_fusion v = Some f ∧ vtype_ v = vt ∧ dtype_ v = dt)
    ∧ (∀ e, registerVal f this v0 w = Raise e →
         Val_ctor w this vt dt true = Raise e).
Proof.
  intros Hf. unfold Val_ctor. rewrite Hf. eexists. split; [|split; [|split]].
  4: split.
  4:{ intros name w' ->. simpl. by eexists. }
  4:{ intros e ->. done. }
  all: done.
Qed.

Lemma X16_witness :
  (∃ v w', @Val_ctor Example.fusion_header
             (Example.world true false (Some 100%N)) 50%N
             ValType.Scalar DataType.Int true = Ok (v, w')
           ∧ name_ (val_base v) = 7%N)
  ∧ @Val_ctor Symbolic.failing_fusion_header
      (Example.world true false (Some 100%N)) 50%N
      ValType.Scalar DataType.Int true
    = Raise (TorchCheck "was not found in the active fusion.").
Proof.
  split.
  - destruct (X16_Val_ctor_with_registration (H := Example.fusion_header)
                (Example.world true false (Some 100%N)) 50%N 100%N
                ValType.Scalar DataType.Int eq_refl)
      as (v0 & _ & _ & _ & Hok & _).
    destruct (Hok 7%N (Example.world true false (Some 100%N)) eq_refl)
      as (v & Hrun & Hname & _).
    by exists v, (Example.world true false (Some 100%N)).
  - destruct (X16_Val_ctor_with_registration
                (H := Symbolic.failing_fusion_header)
                (Example.world true false (Some 100%N)) 50%N 100%N
                ValType.Scalar DataType.Int eq_refl)
      as (v0 & _ & _ & _ & _ & Herr).
    by apply Herr.
Defined.

(** ** Cloning several statements *)

(** X17: two Vals cloned one after the other through one cloner are both
    in its map afterwards, each source with its own clone, and both clones
    are owned by the Fusion of the cloner and keep the names of their
    sources. *)
Theorem X17_Val_clone_twice
    (h : gmap N Object) (t1 t2 s1 s2 : N) (ir_cloner : IrCloner.t)
    (n1 n2 : ValNode) :
  h !! s1 = Some (OVal n1) →
  h !! s2 = Some (OVal n2) →
  s1 ≠ s2 →
  ∃ v1 cl1 v2 cl2,
    Val_clone h t1 s1 ir_cloner = Ok (v1, cl1)
    ∧ Val_clone h t2 s2 cl1 = Ok (v2, cl2)
    ∧ IrCloner.clones_map_ cl2 !! s1 = Some t1
    ∧ IrCloner.clones_map_ cl2 !! s2 = Some t2
    ∧ Val_fusion v1 = IrCloner.fusion ir_cloner
    ∧ Val_fusion v2 = IrCloner.fusion ir_cloner
    ∧ name_ (val_base v1) = name_ (val_base (val_of n1))
    ∧ name_ (val_base v2) = name_ (val_base (val_of n2)).
Proof.
  intros H1 H2 Hne. unfold Val_clone, Statement_clone.
  rewrite (load_Val_lookup _ _ _ H1), (load_Val_lookup _ _ _ H2).
  unfold load. rewrite H1, H2. simpl.
  eexists _, _, _, _. split; [done|]. split; [done|]. simpl.
  split; [|split; [|done]].
  - rewrite lookup_insert_ne by done. apply lookup_insert_eq.
  - apply lookup_insert_eq.
Qed.

Lemma X17_witness :
  ∃ v1 cl1 v2 cl2,
    Val_clone Example.graph 50%N Example.a Example.cloner = Ok (v1, cl1)
    ∧ Val_clone Example.graph 51%N Example.b cl1 = Ok (v2, cl2)
    ∧ IrCloner.clones_map_ cl2 !! Example.a = Some 50%N
    ∧ IrCloner.clones_map_ cl2 !! Example.b = Some 51%N.
Proof.
  destruct (X17_Val_clone_twice Example.graph 50%N 51%N Example.a Example.b
              Example.cloner _ _
              ltac:(by vm_compute) ltac:(by vm_compute) ltac:(done))
    as (v1 & cl1 & v2 & cl2 & Hc1 & Hc2 & Hm1 & Hm2 & _).
  by exists v1, cl1, v2, cl2.
Defined.

(** X18: the clone constructor of [Expr] registers the new Expr before it
    clones the inputs: the cloner that clones the inputs already maps the
    source to the new Expr.  The inputs are cloned first, from the source as
    it is at the call, and the outputs after them, from the source as the
    cloning of the inputs leaves it.  With a cloner of vectors that keeps
    the entries of the map and its Fusion, the map still has the entry of
    the source when the constructor returns, together with every entry it
    had before for another source; the new Expr has the kind and the name
    the source had at the call and is owned by the Fusion of the cloner. *)
Theorem X18_Expr_clone_registers_before_inputs `{ClonerHeader}
    (h : gmap N Object) (this src : N) (ir_cloner : IrCloner.t) (e : Expr) :
  h !! src = Some (OExpr e) →
  (∀ l h0 cl0 l' h' cl',
     IrCloner_clone l h0 cl0 = Ok (l', h', cl') →
     (∀ k v, IrCloner.clones_map_ cl0 !! k = Some v →
             IrCloner.clones_map_ cl' !! k = Some v)
     ∧ IrCloner.fusion cl' = IrCloner.fusion cl0) →
  ∀ e' h' cl',
    Expr_clone h this src ir_cloner = Ok (e', h', cl') →
    (∃ cl1 h1 cl2 e1,
       IrCloner.clones_map_ cl1 !! src = Some this
       ∧ IrCloner_clone (inputs_ e) h cl1 = Ok (inputs_ e', h1, cl2)
       ∧ h1 !! src = Some (OExpr e1)
       ∧ IrCloner_clone (outputs_ e1) h1 cl2 = Ok (outputs_ e', h', cl'))
    ∧ IrCloner.clones_map_ cl' !! src = Some this
    ∧ (∀ k v, k ≠ src → IrCloner.clones_map_ ir_cloner !! k = Some v →
              IrCloner.clones_map_ cl' !! k = Some v)
    ∧ type_ e' = type_ e
    ∧ name_ (expr_base e') = name_ (expr_base e)
    ∧ Expr_fusion e' = IrCloner.fusion ir_cloner
    ∧ IrCloner.fusion cl' = IrCloner.fusion ir_cloner.
Proof.
  intros He Hkeep e' h' cl'. unfold Expr_clone, Statement_clone, load.
  rewrite He. simpl. rewrite (load_Expr_lookup _ _ _ He). simpl.
  destruct (IrCloner_clone (inputs_ e) h _) as [[[ins h1] cl2]| |] eqn:Hins;
    simpl; [|done..].
  destruct (load_Expr h1 src) as [e1| |] eqn:He1; simpl; [|done..].
  destruct (IrCloner_clone (outputs_ e1) h1 cl2) as [[[outs h2] cl3]| |]
    eqn:Houts; simpl; [|done..].
  intros [= <- <- <-]. simpl.
  destruct (Hkeep _ _ _ _ _ _ Hins) as [Hk1 Hf1].
  destruct (Hkeep _ _ _ _ _ _ Houts) as [Hk2 Hf2].
  split; [|split; [|split; [|split; [|split; [|split]]]]]; try done.
  - exists (IrCloner.registerClone src this ir_cloner), h1, cl2, e1.
    split; [simpl; apply lookup_insert_eq|].
    split; [done|]. split; [by apply load_Expr_Ok|done].
  - apply Hk2, Hk1. simpl. apply lookup_insert_eq.
  - intros k v Hne Hkv. apply Hk2, Hk1. simpl.
    by rewrite lookup_insert_ne.
  - by rewrite Hf2, Hf1.
Qed.

Lemma X18_witness :
  (∃ e' h' cl',
     @Expr_clone Symbolic.lookup_cloner Example.graph 60%N Example.add
       Example.cloner = Ok (e', h', cl')
     ∧ IrCloner.clones_map_ cl' !! Example.add = Some 60%N
     ∧ type_ e' = 1%N)
  ∧ (∃ e' h' cl',
       @Expr_clone Symbolic.rewriting_cloner Example.graph 60%N Example.add
         Example.cloner = Ok (e', h', cl')
       ∧ IrCloner.clones_map_ cl' !! Example.add = Some 60%N
       ∧ inputs_ e' = [Example.a; Example.b]
       ∧ outputs_ e' = [Example.d]).
Proof.
  split.
  - destruct (@Expr_clone Symbolic.lookup_cloner Example.graph 60%N
                Example.add Example.cloner) as [[[e' h'] cl']| |] eqn:Hrun;
      [|by vm_compute in Hrun..].
    destruct (X18_Expr_clone_registers_before_inputs
                (H := Symbolic.lookup_cloner)
                Example.graph 60%N Example.add Example.cloner _
                ltac:(by vm_compute)
                ltac:(by intros l h0 cl0 l' h1 cl1 [= _ _ <-])
                e' h' cl' Hrun) as (_ & Hmap & _ & Htype & _).
    exists e', h', cl'. split; [done|]. split; [exact Hmap|exact Htype].
  - destruct (@Expr_clone Symbolic.rewriting_cloner Example.graph 60%N
                Example.add Example.cloner) as [[[e' h'] cl']| |] eqn:Hrun;
      [|by vm_compute in Hrun..].
    destruct (X18_Expr_clone_registers_before_inputs
                (H := Symbolic.rewriting_cloner)
                Example.graph 60%N Example.add Example.cloner _
                ltac:(by vm_compute)
                ltac:(by intros l h0 cl0 l' h1 cl1 [= _ _ <-])
                e' h' cl' Hrun) as (_ & Hmap & _).
    exists e', h', cl'. split; [done|]. split; [exact Hmap|].
    vm_compute in Hrun. injection Hrun as <- _ _. by split.
Defined.
